(** * Flight search engine: the in-memory offer pipeline

    A shallow embedding of the data pipeline of the flight search engine
    (utils/Helper.ts, hooks/useFlights.ts, components/charts/PriceChart.tsx
    and routes/index.tsx): normalisation of raw offers, the filter predicate,
    sorting, pagination and the price histogram.

    Modelling conventions.
    - A JavaScript [number] stored in a record is a finite number carried
      exactly, as a rational [Q]; values that are integers by construction
      (lengths, hours, epoch milliseconds, results of [Math.floor]) are [Z].
      Rounding of doubles and the sign of zero are outside the model.
    - [Math.min] and [Math.max] of a spread array, and a division, can yield
      a value that is not finite; their results have type [ext], which adds
      [Infinity], [-Infinity] and [NaN].
    - An exception is a value: code that can throw returns [outcome].
    - Arrays that the code copies and sorts in place live in a heap
      ([gmap loc (list _)]). *)

From Stdlib Require Import ZArith QArith Qround Lqa List String Ascii Bool Lia.
From Stdlib Require Import Permutation Sorted.
From stdpp Require Import gmap.
Import ListNotations.

Local Open Scope string_scope.
Local Open Scope list_scope.
Local Open Scope Z_scope.

(** ** JavaScript values and built-ins *)

Module JS.

(** A number that may fail to be finite. *)
Inductive ext (A : Type) : Type :=
| Fin (a : A)
| PosInfinity
| NegInfinity
| NaN.
Arguments Fin {A} a.
Arguments PosInfinity {A}.
Arguments NegInfinity {A}.
Arguments NaN {A}.

(** [a < b] and [a > b] on finite numbers. *)
Definition Qltb (a b : Q) : bool := negb (Qle_bool b a).
Definition Qgtb (a b : Q) : bool := Qltb b a.

(** [Math.min(...xs)]: [Infinity] for the empty array. *)
Fixpoint Math_min (xs : list Q) : ext Q :=
  match xs with
  | [] => PosInfinity
  | x :: rest =>
      match Math_min rest with
      | Fin m => Fin (if Qle_bool x m then x else m)
      | _ => Fin x
      end
  end.

(** [Math.max(...xs)]: [-Infinity] for the empty array. *)
Fixpoint Math_max (xs : list Q) : ext Q :=
  match xs with
  | [] => NegInfinity
  | x :: rest =>
      match Math_max rest with
      | Fin m => Fin (if Qle_bool m x then x else m)
      | _ => Fin x
      end
  end.

(** [x / c] for a finite, positive constant [c]. *)
Definition divc (x : ext Q) (c : Q) : ext Q :=
  match x with
  | Fin q => Fin (q / c)%Q
  | PosInfinity => PosInfinity
  | NegInfinity => NegInfinity
  | NaN => NaN
  end.

(** [a / b] on finite operands: a zero divisor gives an infinity, or
    [NaN] for [0 / 0]. *)
Definition div (a b : Q) : ext Q :=
  if Qeq_bool b 0 then
    if Qeq_bool a 0 then NaN
    else if Qltb 0 a then PosInfinity else NegInfinity
  else Fin (a / b)%Q.

Definition Math_floor (x : ext Q) : ext Z :=
  match x with
  | Fin q => Fin (Qfloor q)
  | PosInfinity => PosInfinity
  | NegInfinity => NegInfinity
  | NaN => NaN
  end.

Definition Math_ceil (x : ext Q) : ext Z :=
  match x with
  | Fin q => Fin (Qceiling q)
  | PosInfinity => PosInfinity
  | NegInfinity => NegInfinity
  | NaN => NaN
  end.

(** [x * c] for a finite, positive integer constant [c]. *)
Definition mulc (x : ext Z) (c : Z) : ext Z :=
  match x with
  | Fin z => Fin (z * c)
  | PosInfinity => PosInfinity
  | NegInfinity => NegInfinity
  | NaN => NaN
  end.

(** [q !== n] between a finite number and a possibly non-finite integer. *)
Definition strictNe (q : Q) (n : ext Z) : bool :=
  match n with
  | Fin z => negb (Qeq_bool q (inject_Z z))
  | _ => true
  end.

(** [xs.includes(x)] on an array of strings. *)
Definition includes (xs : list string) (x : string) : bool :=
  existsb (String.eqb x) xs.

(** [xs.slice(start, end)]: negative indices count from the end, and
    both bounds are clamped to the array. *)
Definition slice {A} (xs : list A) (start end_ : Z) : list A :=
  let len := Z.of_nat (List.length xs) in
  let k := if start <? 0 then Z.max (len + start) 0 else Z.min start len in
  let fin := if end_ <? 0 then Z.max (len + end_) 0 else Z.min end_ len in
  firstn (Z.to_nat (fin - k)) (skipn (Z.to_nat k) xs).

(** [xs.sort(cmp)].  ECMAScript requires the sort to be stable, and for a
    comparator that is a total preorder the result is then determined: it
    is computed here by a stable insertion sort.  [cmp a b] is the number
    the comparator returns; only its sign is used. *)
Section Sort.
Context {A : Type} (cmp : A -> A -> Q).

Fixpoint insert (x : A) (xs : list A) : list A :=
  match xs with
  | [] => [x]
  | y :: rest =>
      if Qle_bool (cmp x y) 0 then x :: y :: rest
      else y :: insert x rest
  end.

Fixpoint sort (xs : list A) : list A :=
  match xs with
  | [] => []
  | x :: rest => insert x (sort rest)
  end.
End Sort.

(** A thrown exception. *)
Inductive error : Type :=
| TypeError.

Inductive outcome (A : Type) : Type :=
| Ok (a : A)
| Throw (e : error).
Arguments Ok {A} a.
Arguments Throw {A} e.

Definition bind {A B} (m : outcome A) (k : A -> outcome B) : outcome B :=
  match m with
  | Ok a => k a
  | Throw e => Throw e
  end.

(** [xs.map(f)] for a callback that may throw: the first exception
    leaves the loop. *)
Fixpoint Array_map {A B} (f : A -> outcome B) (xs : list A)
  : outcome (list B) :=
  match xs with
  | [] => Ok []
  | x :: rest =>
      bind (f x) (fun y =>
      bind (Array_map f rest) (fun ys => Ok (y :: ys)))
  end.

End JS.

Import JS.

(** ** Data model *)

(** Modelled from the spec: types/flight.ts is not among the sources.  The
    records of a raw offer below have the fields the code reads
    ([itineraries], [segments], [duration], [carrierCode], [departure.at],
    [arrival.at], [price.total], [id]), typed as the data model of the
    specification describes them. *)
Record Endpoint := { iataCode : string; at_ : string }.

Record Segment := {
  departure : Endpoint;
  arrival : Endpoint;
  carrierCode : string
}.

Record Itinerary := {
  itineraryDuration : string;
  segments : list Segment
}.

Record Price := { currency : string; total : string }.

Record FlightOffer := {
  id : string;
  itineraries : list Itinerary;
  price : Price
}.

(** A [Date] object: its time value, in milliseconds since the epoch. *)
Definition Date := Z.

(** The raw offer spread into the object, and the computed fields. *)
Record ProcessedFlight := {
  offer : FlightOffer;
  totalDuration : Q;
  totalStops : Z;
  mainAirline : string;
  departureTime : Date;
  arrivalTime : Date;
  priceNumeric : Q
}.

(** Ranges are two-element arrays [[min, max]]. *)
Record FilterState := {
  priceRange : Q * Q;
  stops : list string;
  airlines : list string;
  departureTimeRange : Q * Q;
  arrivalTimeRange : Q * Q;
  duration : Q * Q
}.

Record PriceDataPoint := {
  pointPrice : Q;
  pointDate : string;
  pointAirline : string;
  pointStops : Z
}.

Record PriceStats := {
  statsLowest : ext Q;
  statsHighest : ext Q;
  statsAverage : ext Q
}.

Record PriceTrend := {
  current : list PriceDataPoint;
  filtered : list PriceDataPoint;
  lowest : ext Q;
  highest : ext Q;
  average : ext Q
}.

(** What the code takes from the JavaScript host: the parsers of numerals
    and of ISO date strings, the offset of local time from UTC at an
    instant (in milliseconds), and the date part of [toISOString]. *)
Class Host := {
  parseFloat : string -> Q;
  newDate : string -> Date;
  tzOffset : Date -> Z;
  toISODate : Date -> string
}.

(** ** Date and duration utilities (utils/Helper.ts) *)

Definition msPerHour : Z := 3600000.

(** [date.getHours()]: the hour of the day in local time. *)
Definition getHours `{Host} (date : Date) : Z :=
  ((date + tzOffset date) / msPerHour) mod 24.

Definition isDigit (c : ascii) : bool :=
  let n := nat_of_ascii c in (48 <=? n)%nat && (n <=? 57)%nat.

(** The longest prefix of digits of a string, and what follows it. *)
Fixpoint digits (s : string) : list ascii * string :=
  match s with
  | String c rest =>
      if isDigit c then let (ds, tl) := digits rest in (c :: ds, tl)
      else ([], s)
  | EmptyString => ([], s)
  end.

(** [parseInt] of a text that starts with the digits [ds]. *)
Definition parseInt (ds : list ascii) : Z :=
  fold_left (fun acc c => acc * 10 + (Z.of_nat (nat_of_ascii c) - 48)) ds 0.

(** One optional group [(\d+U)?] of the pattern, matched at the head of
    [s]: the number it captured, if it matched, and the rest of the text. *)
Definition group (unit : ascii) (s : string) : option Z * string :=
  match digits s with
  | (d :: ds, String c rest) =>
      if Ascii.eqb c unit then (Some (parseInt (d :: ds)), rest)
      else (None, s)
  | _ => (None, s)
  end.

(** The text after the first occurrence of ["PT"], where the pattern
    [/PT(\d+H)?(\d+M)?/] matches; [None] when [match] returns [null]. *)
Fixpoint afterPT (s : string) : option string :=
  match s with
  | EmptyString => None
  | String c rest =>
      match c, rest with
      | "P"%char, String "T"%char tl => Some tl
      | _, _ => afterPT rest
      end
  end.

Definition parseDuration (duration : string) : Z :=
  match afterPT duration with
  | None => 0
  | Some s =>
      let (h, s') := group "H"%char s in
      let (m, _) := group "M"%char s' in
      let hours := match h with Some n => n | None => 0 end in
      let minutes := match m with Some n => n | None => 0 end in
      hours * 60 + minutes
  end.

(** ** Flight data processing (utils/Helper.ts) *)

(** [xs[i]] read for a property: [undefined.prop] throws a [TypeError]. *)
Definition deref {A} (x : option A) : outcome A :=
  match x with
  | Some a => Ok a
  | None => Throw TypeError
  end.

Definition processFlightOffer `{Host} (offer : FlightOffer)
  : outcome ProcessedFlight :=
  (* offer.itineraries[0], then its .segments *)
  bind (deref (nth_error (itineraries offer) 0)) (fun firstItinerary =>
  let firstSegment := nth_error (segments firstItinerary) 0 in
  let lastSegment :=
    let i := Z.of_nat (List.length (segments firstItinerary)) - 1 in
    if i <? 0 then None
    else nth_error (segments firstItinerary) (Z.to_nat i) in
  let totalDuration :=
    fold_left (fun total itinerary =>
                 total + parseDuration (itineraryDuration itinerary))
              (itineraries offer) 0 in
  let totalStops := Z.of_nat (List.length (segments firstItinerary)) - 1 in
  (* the object literal reads firstSegment.carrierCode first *)
  bind (deref firstSegment) (fun first =>
  bind (deref lastSegment) (fun last =>
  Ok {| offer := offer;
        totalDuration := inject_Z totalDuration;
        totalStops := totalStops;
        mainAirline := carrierCode first;
        departureTime := newDate (at_ (departure first));
        arrivalTime := newDate (at_ (arrival last));
        priceNumeric := parseFloat (total (price offer)) |}))).

Definition stopCategory (flight : ProcessedFlight) : string :=
  if totalStops flight =? 0 then "0"
  else if totalStops flight =? 1 then "1" else "2+".

(** The callback of [flights.filter] in [applyFilters]. *)
Definition keepFlight `{Host} (filters : FilterState)
  (flight : ProcessedFlight) : bool :=
  (* Price filter *)
  if Qltb (priceNumeric flight) (fst (priceRange filters))
     || Qgtb (priceNumeric flight) (snd (priceRange filters))
  then false
  (* Stops filter *)
  else if (0 <? Z.of_nat (List.length (stops filters)))
          && negb (includes (stops filters) (stopCategory flight))
  then false
  (* Airlines filter *)
  else if (0 <? Z.of_nat (List.length (airlines filters)))
          && negb (includes (airlines filters) (mainAirline flight))
  then false
  else
    (* Departure time filter *)
    let departureHour := inject_Z (getHours (departureTime flight)) in
    if Qltb departureHour (fst (departureTimeRange filters))
       || Qgtb departureHour (snd (departureTimeRange filters))
    then false
    else
      (* Arrival time filter *)
      let arrivalHour := inject_Z (getHours (arrivalTime flight)) in
      if Qltb arrivalHour (fst (arrivalTimeRange filters))
         || Qgtb arrivalHour (snd (arrivalTimeRange filters))
      then false
      (* Duration filter *)
      else if Qltb (totalDuration flight) (fst (duration filters))
              || Qgtb (totalDuration flight) (snd (duration filters))
      then false
      else true.

Definition applyFilters `{Host} (flights : list ProcessedFlight)
  (filters : FilterState) : list ProcessedFlight :=
  List.filter (keepFlight filters) flights.

Definition generatePriceData `{Host} (flights : list ProcessedFlight)
  : list PriceDataPoint :=
  map (fun flight =>
         {| pointPrice := priceNumeric flight;
            pointDate := toISODate (departureTime flight);
            pointAirline := mainAirline flight;
            pointStops := totalStops flight |}) flights.

Definition calculatePriceStats (flights : list ProcessedFlight) : PriceStats :=
  if Z.of_nat (List.length flights) =? 0 then
    {| statsLowest := Fin 0%Q; statsHighest := Fin 0%Q;
       statsAverage := Fin 0%Q |}
  else
    let prices := map priceNumeric flights in
    {| statsLowest := Math_min prices;
       statsHighest := Math_max prices;
       statsAverage :=
         div (fold_left Qplus prices 0%Q)
             (inject_Z (Z.of_nat (List.length prices))) |}.

Definition getPriceRange (flights : list ProcessedFlight) : ext Z * ext Z :=
  if Z.of_nat (List.length flights) =? 0 then (Fin 0, Fin 1000)
  else
    let prices := map priceNumeric flights in
    (Math_floor (Math_min prices), Math_ceil (Math_max prices)).

Definition getDurationRange (flights : list ProcessedFlight)
  : ext Z * ext Z :=
  if Z.of_nat (List.length flights) =? 0 then (Fin 0, Fin 1440)
  else
    let durations := map totalDuration flights in
    (Math_floor (Math_min durations), Math_ceil (Math_max durations)).

(** ** Hooks (hooks/useFlights.ts) *)

Record FlightOffersResponse := { data : list FlightOffer }.

(** [processedFlights] of [useFlightSearch]: no response gives the empty
    list, otherwise every offer of the batch goes through
    [processFlightOffer]. *)
Definition processedFlights `{Host} (rawData : option FlightOffersResponse)
  : outcome (list ProcessedFlight) :=
  match rawData with
  | None => Ok []
  | Some response => Array_map processFlightOffer (data response)
  end.

(** [filteredFlights] of [useFlightFilters]. *)
Definition filteredFlights `{Host} (flights : list ProcessedFlight)
  (filters : FilterState) : list ProcessedFlight :=
  applyFilters flights filters.

(** [hasActiveFilters] of [useFlightFilters]; the initial ranges are
    recomputed from the current flights. *)
Definition hasActiveFilters (flights : list ProcessedFlight)
  (filters : FilterState) : bool :=
  let initialPriceRange := getPriceRange flights in
  let initialDurationRange := getDurationRange flights in
  (0 <? Z.of_nat (List.length (stops filters)))
  || (0 <? Z.of_nat (List.length (airlines filters)))
  || strictNe (fst (priceRange filters)) (fst initialPriceRange)
  || strictNe (snd (priceRange filters)) (snd initialPriceRange)
  || negb (Qeq_bool (fst (departureTimeRange filters)) 0)
  || negb (Qeq_bool (snd (departureTimeRange filters)) 23)
  || negb (Qeq_bool (fst (arrivalTimeRange filters)) 0)
  || negb (Qeq_bool (snd (arrivalTimeRange filters)) 23)
  || strictNe (fst (duration filters)) (fst initialDurationRange)
  || strictNe (snd (duration filters)) (snd initialDurationRange).

Definition usePriceTrend `{Host} (allFlights filteredFlights
  : list ProcessedFlight) : PriceTrend :=
  let allData := generatePriceData allFlights in
  let filteredData := generatePriceData filteredFlights in
  let stats := calculatePriceStats filteredFlights in
  {| current := allData;
     filtered := filteredData;
     lowest := statsLowest stats;
     highest := statsHighest stats;
     average := statsAverage stats |}.

Inductive SortField := SortPrice | SortDuration | SortDeparture.
Inductive SortDirection := Asc | Desc.

(** The comparator passed to [sorted.sort]. *)
Definition comparator (sortField : SortField) (sortDirection : SortDirection)
  (a b : ProcessedFlight) : Q :=
  let comparison :=
    match sortField with
    | SortPrice => (priceNumeric a - priceNumeric b)%Q
    | SortDuration => (totalDuration a - totalDuration b)%Q
    | SortDeparture => inject_Z (departureTime a - departureTime b)
    end in
  match sortDirection with
  | Asc => comparison
  | Desc => (- comparison)%Q
  end.

(** The value of [sortedFlights] as a function of the contents of
    [flights]. *)
Definition sortFlights (sortField : SortField)
  (sortDirection : SortDirection) (flights : list ProcessedFlight)
  : list ProcessedFlight :=
  sort (comparator sortField sortDirection) flights.

(** Arrays are objects with identity: a heap maps the location of an array
    to its contents. *)
Definition loc := positive.
Abbreviation heap := (gmap loc (list ProcessedFlight)).

(** The body of the [useMemo] of [useFlightSort], on the heap:
    [const sorted = [...flights]] allocates a copy, [sorted.sort(..)]
    sorts the copy in place, and the copy is returned. *)
Definition sortedFlights (sortField : SortField)
  (sortDirection : SortDirection) (flights : loc) (h : heap) : loc * heap :=
  let sorted := fresh (dom h) in
  let h1 := <[sorted := default [] (h !! flights)]> h in
  let h2 := alter (sort (comparator sortField sortDirection)) sorted h1 in
  (sorted, h2).

Definition toggleSort (field : SortField)
  (st : SortField * SortDirection) : SortField * SortDirection :=
  let (sortField, sortDirection) := st in
  match field, sortField with
  | SortPrice, SortPrice | SortDuration, SortDuration
  | SortDeparture, SortDeparture =>
      (sortField, match sortDirection with Asc => Desc | Desc => Asc end)
  | _, _ => (field, Asc)
  end.

(** ** Price chart (components/charts/PriceChart.tsx) *)

(** An object used as a map from integer keys: its properties in the order
    of their creation. *)
Section Object.
Context {V : Type}.

Definition Object_get (o : list (Z * V)) (key : Z) : option V :=
  option_map snd (find (fun kv => fst kv =? key) o).

(** [o[key] = v]: overwrite in place, or create the property last. *)
Fixpoint Object_set (o : list (Z * V)) (key : Z) (v : V) : list (Z * V) :=
  match o with
  | [] => [(key, v)]
  | (k, w) :: rest =>
      if k =? key then (k, v) :: rest
      else (k, w) :: Object_set rest key v
  end.

(** A mutation [f] of the value stored under [key]. *)
Definition Object_update (o : list (Z * V)) (key : Z) (f : V -> V)
  : list (Z * V) :=
  map (fun kv => if fst kv =? key then (fst kv, f (snd kv)) else kv) o.

(** Keys that are array indices (integers from 0 to 2^32 - 2) are
    enumerated first, in ascending order; the other keys follow in the
    order of their creation. *)
Definition isArrayIndex (key : Z) : bool :=
  (0 <=? key) && (key <? 2 ^ 32 - 1).

Definition Object_entries (o : list (Z * V)) : list (Z * V) :=
  sort (fun a b => inject_Z (fst a - fst b))
       (List.filter (fun kv => isArrayIndex (fst kv)) o)
  ++ List.filter (fun kv => negb (isArrayIndex (fst kv))) o.
End Object.

Record Counts := { all : nat; filteredCount : nat }.

Record ChartPoint := {
  chartPrice : Z;
  allFlights : nat;
  chartFiltered : nat
}.

Definition bucketSize : Z := 50.

(** [Math.floor(price / bucketSize) * bucketSize] *)
Definition bucketOf (price : Q) : Z :=
  Qfloor (price / inject_Z bucketSize) * bucketSize.

(** [for (let i = min; i <= max; i += bucketSize) buckets[i] = {..}] *)
Fixpoint initBuckets (fuel : nat) (i max : Z) (buckets : list (Z * Counts))
  : list (Z * Counts) :=
  match fuel with
  | O => buckets
  | S fuel' =>
      if i <=? max then
        initBuckets fuel' (i + bucketSize) max
          (Object_set buckets i {| all := 0; filteredCount := 0 |})
      else buckets
  end.

(** The callbacks of the two [forEach] loops. *)
Definition countAll (buckets : list (Z * Counts)) (price : Q)
  : list (Z * Counts) :=
  let bucket := bucketOf price in
  match Object_get buckets bucket with
  | Some _ =>
      Object_update buckets bucket
        (fun c => {| all := S (all c); filteredCount := filteredCount c |})
  | None => buckets
  end.

Definition countFiltered (buckets : list (Z * Counts)) (price : Q)
  : list (Z * Counts) :=
  let bucket := bucketOf price in
  match Object_get buckets bucket with
  | Some _ =>
      Object_update buckets bucket
        (fun c => {| all := all c; filteredCount := S (filteredCount c) |})
  | None => buckets
  end.

Definition ascending (a b : Q) : Q := (a - b)%Q.

Definition chartData (priceTrend : PriceTrend) : list ChartPoint :=
  if Z.of_nat (List.length (current priceTrend)) =? 0 then []
  else
    let allPrices := sort ascending (map pointPrice (current priceTrend)) in
    let filteredPrices :=
      sort ascending (map pointPrice (filtered priceTrend)) in
    if Z.of_nat (List.length allPrices) =? 0 then []
    else
      let min :=
        mulc (Math_floor (divc (Math_min allPrices) (inject_Z bucketSize)))
             bucketSize in
      let max :=
        mulc (Math_ceil (divc (Math_max allPrices) (inject_Z bucketSize)))
             bucketSize in
      match min, max with
      | Fin min, Fin max =>
          (* the loop runs (max - min) / bucketSize + 1 times *)
          let buckets :=
            initBuckets (Z.to_nat ((max - min) / bucketSize + 1))
                        min max [] in
          let buckets := fold_left countAll allPrices buckets in
          let buckets := fold_left countFiltered filteredPrices buckets in
          map (fun entry =>
                 {| chartPrice := fst entry;
                    allFlights := all (snd entry);
                    chartFiltered := filteredCount (snd entry) |})
              (Object_entries buckets)
      | _, _ => []   (* !isFinite(min) || !isFinite(max) *)
      end.

(** ** The search page (routes/index.tsx) *)

(** The validated search of the route. *)
Record SearchSchema := {
  origin : option string;
  destination : option string;
  departureDate : option string;
  returnDate : option string;
  adults : Z;
  currencyCode : option string
}.

(** The state the page holds between renders: the route's search, the
    page index, the flights of the current query, and the states of the
    filter and sort hooks. *)
Record PageState := {
  searchParams : SearchSchema;
  currentPage : Z;
  loadedFlights : list ProcessedFlight;
  filters : FilterState;
  sorting : SortField * SortDirection
}.

(** What changes the state: a navigation to a new search, the pagination
    control calling [setCurrentPage], the query delivering flights,
    [setFilters] (from [updateFilter] or [resetFilters]), and
    [toggleSort]. *)
Inductive Event :=
| Navigate (search : SearchSchema)
| PageChange (page : Z)
| FlightsLoaded (flights : list ProcessedFlight)
| SetFilters (next : FilterState)
| ToggleSort (field : SortField).

(** The state at mount, before any search: [useState(1)] for the page,
    no flights, the filter state initialised from the fallback ranges of
    an empty flight list, and the sort by ascending price. *)
Definition initialState : PageState :=
  {| searchParams :=
       {| origin := None; destination := None; departureDate := None;
          returnDate := None; adults := 1; currencyCode := None |};
     currentPage := 1;
     loadedFlights := [];
     filters :=
       {| priceRange := (0, 1000)%Q;
          stops := [];
          airlines := [];
          departureTimeRange := (0, 23)%Q;
          arrivalTimeRange := (0, 23)%Q;
          duration := (0, 1440)%Q |};
     sorting := (SortPrice, Asc) |}.

Definition sameOption (a b : option string) : bool :=
  match a, b with
  | Some x, Some y => String.eqb x y
  | None, None => true
  | _, _ => false
  end.

(** Whether a dependency of the effect
    [useEffect(() => setCurrentPage(1), [origin, destination, departureDate])]
    changed between two renders. *)
Definition searchKeyChanged (old new : SearchSchema) : bool :=
  negb (sameOption (origin old) (origin new)
        && sameOption (destination old) (destination new)
        && sameOption (departureDate old) (departureDate new)).

Definition step (s : PageState) (e : Event) : PageState :=
  match e with
  | Navigate search =>
      {| searchParams := search;
         currentPage :=
           if searchKeyChanged (searchParams s) search then 1
           else currentPage s;
         loadedFlights := loadedFlights s;
         filters := filters s;
         sorting := sorting s |}
  | PageChange page =>
      {| searchParams := searchParams s; currentPage := page;
         loadedFlights := loadedFlights s; filters := filters s;
         sorting := sorting s |}
  | FlightsLoaded flights =>
      {| searchParams := searchParams s; currentPage := currentPage s;
         loadedFlights := flights; filters := filters s;
         sorting := sorting s |}
  | SetFilters next =>
      {| searchParams := searchParams s; currentPage := currentPage s;
         loadedFlights := loadedFlights s; filters := next;
         sorting := sorting s |}
  | ToggleSort field =>
      {| searchParams := searchParams s; currentPage := currentPage s;
         loadedFlights := loadedFlights s; filters := filters s;
         sorting := toggleSort field (sorting s) |}
  end.

(** The filtered and sorted flights the page paginates. *)
Definition sortedView `{Host} (s : PageState) : list ProcessedFlight :=
  sortFlights (fst (sorting s)) (snd (sorting s))
    (filteredFlights (loadedFlights s) (filters s)).

Definition pageSize : Z := 10.

(** [Math.ceil(sortedFlights.length / pageSize)] *)
Definition totalFilteredPages (sortedFlights : list ProcessedFlight) : Z :=
  Qceiling (inject_Z (Z.of_nat (List.length sortedFlights))
            / inject_Z pageSize).

Definition paginatedSortedFlights (sortedFlights : list ProcessedFlight)
  (currentPage : Z) : list ProcessedFlight :=
  let startIdx := (currentPage - 1) * pageSize in
  let endIdx := startIdx + pageSize in
  slice sortedFlights startIdx endIdx.

(** [hasNextPage] as passed to the pagination control. *)
Definition hasNextPage (sortedFlights : list ProcessedFlight)
  (currentPage : Z) : bool :=
  currentPage <? totalFilteredPages sortedFlights.

(** ** The filter contract, in the words of the specification *)

Definition withinRange (x : Q) (range : Q * Q) : Prop :=
  (fst range <= x)%Q /\ (x <= snd range)%Q.

(** The label of a stop count is a member of the selection. *)
Definition stopsSelected (selection : list string) (stopCount : Z) : Prop :=
  (stopCount = 0 /\ In "0" selection)
  \/ (stopCount = 1 /\ In "1" selection)
  \/ (2 <= stopCount /\ In "2+" selection).

Definition satisfies `{Host} (filters : FilterState)
  (flight : ProcessedFlight) : Prop :=
  withinRange (priceNumeric flight) (priceRange filters)
  /\ (stops filters = [] \/ stopsSelected (stops filters) (totalStops flight))
  /\ (airlines filters = [] \/ In (mainAirline flight) (airlines filters))
  /\ withinRange (inject_Z (getHours (departureTime flight)))
                 (departureTimeRange filters)
  /\ withinRange (inject_Z (getHours (arrivalTime flight)))
                 (arrivalTimeRange filters)
  /\ withinRange (totalDuration flight) (duration filters).

(** ** Vocabulary of the properties *)

(** The value a flight is ordered by. *)
Definition sortKey (sortField : SortField) (flight : ProcessedFlight) : Q :=
  match sortField with
  | SortPrice => priceNumeric flight
  | SortDuration => totalDuration flight
  | SortDeparture => inject_Z (departureTime flight)
  end.

Definition sameKey (sortField : SortField) (key : Q)
  (flight : ProcessedFlight) : bool :=
  Qeq_bool (sortKey sortField flight) key.

(** The page index lies in [[1, max(1, totalPages)]]. *)
Definition pageClamped `{Host} (s : PageState) : Prop :=
  1 <= currentPage s
  <= Z.max 1 (totalFilteredPages (sortedView s)).

(** Events that change the filtered and sorted collection without
    touching the search or the page index. *)
Definition changesView (e : Event) : bool :=
  match e with
  | FlightsLoaded _ | SetFilters _ | ToggleSort _ => true
  | Navigate _ | PageChange _ => false
  end.

(** An offer without itineraries, or whose first itinerary has no
    segments. *)
Definition malformed (offer : FlightOffer) : Prop :=
  match itineraries offer with
  | [] => True
  | firstItinerary :: _ => segments firstItinerary = []
  end.

Definition isMinimum (m : Q) (xs : list Q) : Prop :=
  In m xs /\ forall x, In x xs -> (m <= x)%Q.

Definition isMaximum (m : Q) (xs : list Q) : Prop :=
  In m xs /\ forall x, In x xs -> (x <= m)%Q.

(** The no-op value of a range, as the code has it: the floor of the
    least and the ceiling of the greatest observed value, or the fallback
    pair when nothing is observed. *)
Definition defaultRange (fallback : Q * Q) (observed : list Q)
  (range : Q * Q) : Prop :=
  match observed with
  | [] => (fst range == fst fallback)%Q /\ (snd range == snd fallback)%Q
  | _ :: _ =>
      exists lo hi,
        isMinimum lo observed /\ isMaximum hi observed
        /\ (fst range == inject_Z (Qfloor lo))%Q
        /\ (snd range == inject_Z (Qceiling hi))%Q
  end.

(** The no-op value of a range, as the claim words it: the least and the
    greatest observed value themselves. *)
Definition observedRange (fallback : Q * Q) (observed : list Q)
  (range : Q * Q) : Prop :=
  match observed with
  | [] => (fst range == fst fallback)%Q /\ (snd range == snd fallback)%Q
  | _ :: _ =>
      exists lo hi,
        isMinimum lo observed /\ isMaximum hi observed
        /\ (fst range == lo)%Q /\ (snd range == hi)%Q
  end.

(** Every dimension of the filter is at its no-op value, for a given
    reading [noop] of the no-op value of the price and duration ranges. *)
Definition atDefaults (noop : Q * Q -> list Q -> Q * Q -> Prop)
  (flights : list ProcessedFlight) (filters : FilterState) : Prop :=
  stops filters = []
  /\ airlines filters = []
  /\ (fst (departureTimeRange filters) == 0)%Q
  /\ (snd (departureTimeRange filters) == 23)%Q
  /\ (fst (arrivalTimeRange filters) == 0)%Q
  /\ (snd (arrivalTimeRange filters) == 23)%Q
  /\ noop (0, 1000)%Q (map priceNumeric flights) (priceRange filters)
  /\ noop (0, 1440)%Q (map totalDuration flights) (duration filters).

(** The keys the loop of [chartData] creates: [count] keys from [i] on,
    one every [bucketSize]. *)
Fixpoint keysFrom (count : nat) (i : Z) : list Z :=
  match count with
  | O => []
  | S count' => i :: keysFrom count' (i + bucketSize)
  end.

(** The number of iterations of the loop from [i] to [max]. *)
Definition iterations (i max : Z) : nat :=
  Z.to_nat ((max - i) / bucketSize + 1).

Definition zeroCounts : Counts := {| all := 0; filteredCount := 0 |}.

(** How many prices of a list fall in the bucket that starts at [key]. *)
Definition inBucket (key : Z) (price : Q) : bool := bucketOf price =? key.

Definition bucketCount (key : Z) (prices : list Q) : nat :=
  List.length (List.filter (inBucket key) prices).

(** How often a number occurs in a list. *)
Definition occurrences (q : Q) (prices : list Q) : nat :=
  List.length (List.filter (Qeq_bool q) prices).

Definition subMultiset (part whole : list Q) : Prop :=
  forall q : Q, (occurrences q part <= occurrences q whole)%nat.

(** The first element of a list that equals [x], removed. *)
Fixpoint removeOne (x : Q) (xs : list Q) : list Q :=
  match xs with
  | [] => []
  | y :: rest => if Qeq_bool x y then rest else y :: removeOne x rest
  end.

(** The buckets the chart is read from: for every key, the number of
    all-flights prices and of filtered prices in its bucket. *)
Definition histogram (keys : list Z) (allPrices filteredPrices : list Q)
  : list (Z * Counts) :=
  map (fun key =>
         (key, {| all := bucketCount key allPrices;
                  filteredCount := bucketCount key filteredPrices |}))
      keys.

Definition toChartPoint (entry : Z * Counts) : ChartPoint :=
  {| chartPrice := fst entry;
     allFlights := all (snd entry);
     chartFiltered := filteredCount (snd entry) |}.

(** The keys between the bucket of the least price and the bucket at or
    above the greatest. *)
Definition bucketKeys (lo hi : Q) : list Z :=
  let min := Qfloor (lo / inject_Z bucketSize) * bucketSize in
  let max := Qceiling (hi / inject_Z bucketSize) * bucketSize in
  keysFrom (iterations min max) min.

(** ** Sample data *)

Definition sampleSegment (carrier : string) : Segment :=
  {| departure := {| iataCode := "ACC"; at_ := "2024-03-15T10:30:00" |};
     arrival := {| iataCode := "LHR"; at_ := "2024-03-15T17:00:00" |};
     carrierCode := carrier |}.

(** An offer with [legs] segments in its only itinerary. *)
Definition sampleOffer (ident : string) (amount : string) (legs : nat)
  : FlightOffer :=
  {| id := ident;
     itineraries :=
       [ {| itineraryDuration := "PT6H30M";
            segments := repeat (sampleSegment "BA") legs |} ];
     price := {| currency := "USD"; total := amount |} |}.

(** A processed flight with the given identity, price and stop count,
    leaving at 10:30 and arriving at 17:00 UTC on 15 March 2024. *)
Definition sampleFlight (ident : string) (amount : Q) (stopCount : Z)
  : ProcessedFlight :=
  {| offer := sampleOffer ident EmptyString (S (Z.to_nat stopCount));
     totalDuration := 390;
     totalStops := stopCount;
     mainAirline := "BA";
     departureTime := 1710498600000;
     arrivalTime := 1710522000000;
     priceNumeric := amount |}.

Definition fiveFlights : list ProcessedFlight :=
  [ sampleFlight "1" 120 0; sampleFlight "2" 120 0; sampleFlight "3" 120 1;
    sampleFlight "4" 120 1; sampleFlight "5" 120 2 ].

Definition heapOfFive : heap := {[ 1%positive := fiveFlights ]}.

(** A host for the examples: local time is UTC, [parseFloat] reads the
    integer part of a numeral, and every date string denotes
    2024-03-15T10:30:00Z. *)
Definition sampleHost : Host :=
  {| parseFloat := fun s => inject_Z (parseInt (fst (digits s)));
     newDate := fun _ => 1710498600000;
     tzOffset := fun _ => 0;
     toISODate := fun _ => "2024-03-15" |}.

(** Twenty-three flights priced 100, 101, ..., 122. *)
Definition twentyThreeFlights : list ProcessedFlight :=
  map (fun i => sampleFlight (String (ascii_of_nat (65 + i)) EmptyString)
                 (inject_Z (Z.of_nat (100 + i))) 0)
      (seq 0 23).

Definition wideFilters : FilterState :=
  {| priceRange := (0, 1000)%Q;
     stops := [];
     airlines := [];
     departureTimeRange := (0, 23)%Q;
     arrivalTimeRange := (0, 23)%Q;
     duration := (0, 1440)%Q |}.

Definition narrowFilters : FilterState :=
  {| priceRange := (100, 104)%Q;
     stops := [];
     airlines := [];
     departureTimeRange := (0, 23)%Q;
     arrivalTimeRange := (0, 23)%Q;
     duration := (0, 1440)%Q |}.

Definition sampleSearch : SearchSchema :=
  {| origin := Some "ACC"; destination := Some "LHR";
     departureDate := Some "2024-03-15"; returnDate := None;
     adults := 1; currencyCode := None |}.

(** The page showing the third page of the twenty-three flights. *)
Definition onPageThree : PageState :=
  {| searchParams := sampleSearch;
     currentPage := 3;
     loadedFlights := twentyThreeFlights;
     filters := wideFilters;
     sorting := (SortPrice, Asc) |}.

Definition goodOffer : FlightOffer := sampleOffer "good" "250" 2.
Definition badOffer : FlightOffer := sampleOffer "bad" "99" 0.
Definition mixedBatch : FlightOffersResponse :=
  {| data := [goodOffer; badOffer; goodOffer] |}.

Definition halfPricedFlight : ProcessedFlight :=
  sampleFlight "half" (201 # 2) 0.

(** The filter whose ranges are the observed minimum and maximum of
    [halfPricedFlight] alone. *)
Definition observedFilters : FilterState :=
  {| priceRange := (201 # 2, 201 # 2);
     stops := [];
     airlines := [];
     departureTimeRange := (0, 23)%Q;
     arrivalTimeRange := (0, 23)%Q;
     duration := (390, 390)%Q |}.

Definition threeFlights : list ProcessedFlight :=
  [ sampleFlight "a" 100 0; sampleFlight "b" 250 1; sampleFlight "c" 400 2 ].

Definition directOrOneStop : FilterState :=
  {| priceRange := (0, 1000)%Q;
     stops := ["0"; "1"];
     airlines := [];
     departureTimeRange := (0, 23)%Q;
     arrivalTimeRange := (0, 23)%Q;
     duration := (0, 1440)%Q |}.

Definition sampleTrend : PriceTrend :=
  @usePriceTrend sampleHost threeFlights
    (@applyFilters sampleHost threeFlights directOrOneStop).

(** * The rest of the pipeline *)

(** ** More of utils/Helper.ts *)

(** [set.add(x)] on a [Set] of strings, kept in insertion order. *)
Definition Set_add (set : list string) (x : string) : list string :=
  if includes set x then set else set ++ [x].

(** [Array.from(new Set(xs))] *)
Definition Set_from (xs : list string) : list string :=
  fold_left Set_add xs [].

(** The order of [sort()] without a comparator: strings by their code
    units (carrier codes are ASCII, a code unit is a byte here). *)
Definition codeUnitOrder (a b : string) : Q :=
  match String.compare a b with
  | Lt => (-1)%Q
  | Eq => 0%Q
  | Gt => 1%Q
  end.

Definition getUniqueAirlines (flights : list ProcessedFlight) : list string :=
  let airlines := Set_from (map mainAirline flights) in
  sort codeUnitOrder airlines.

(** ** components/results/FlightList.tsx *)

(** [flights.reduce(..)] without an initial value starts from the first
    flight; a later flight replaces the current one only when it is
    strictly cheaper. *)
Definition cheaperOf (minFlight currentFlight : ProcessedFlight)
  : ProcessedFlight :=
  if Qltb (priceNumeric currentFlight) (priceNumeric minFlight)
  then currentFlight else minFlight.

Definition cheapestFlightId (flights : list ProcessedFlight)
  : option string :=
  match flights with
  | [] => None                       (* flights.length > 0 fails: null *)
  | first :: rest => Some (id (offer (fold_left cheaperOf rest first)))
  end.

(** [flight.id === cheapestFlightId] *)
Definition isBestDeal (flights : list ProcessedFlight)
  (flight : ProcessedFlight) : bool :=
  match cheapestFlightId flights with
  | Some cheapest => String.eqb (id (offer flight)) cheapest
  | None => false
  end.

(** A string made of decimal digits only. *)
Definition allDigits (ds : list ascii) : Prop :=
  Forall (fun c => isDigit c = true) ds.

Definition ofChars (cs : list ascii) : string :=
  fold_right String EmptyString cs.

(** What [processFlightOffer] makes of a well-formed offer. *)
Definition normalizedFrom (raw : FlightOffer) (flight : ProcessedFlight)
  : Prop :=
  offer flight = raw
  /\ exists firstItinerary firstSegment,
       nth_error (itineraries raw) 0 = Some firstItinerary
       /\ nth_error (segments firstItinerary) 0 = Some firstSegment
       /\ totalStops flight
          = Z.of_nat (List.length (segments firstItinerary)) - 1
       /\ 0 <= totalStops flight
       /\ mainAirline flight = carrierCode firstSegment
       /\ totalDuration flight
          = inject_Z
              (fold_right Z.add 0
                 (map (fun itinerary =>
                         parseDuration (itineraryDuration itinerary))
                      (itineraries raw)))
       /\ (0 <= totalDuration flight)%Q.

(** ** More of components/charts/PriceChart.tsx *)

(** [x > 0] on a number that may fail to be finite. *)
Definition positive (x : ext Q) : bool :=
  match x with
  | Fin q => Qltb 0 q
  | PosInfinity => true
  | NegInfinity | NaN => false
  end.

(** [a - b] *)
Definition sub (a b : ext Q) : ext Q :=
  match a, b with
  | NaN, _ | _, NaN => NaN
  | Fin x, Fin y => Fin (x - y)%Q
  | PosInfinity, PosInfinity | NegInfinity, NegInfinity => NaN
  | PosInfinity, _ | _, NegInfinity => PosInfinity
  | NegInfinity, _ | _, PosInfinity => NegInfinity
  end.





(** [best] is the first flight of [flights] that no flight undercuts. *)
Definition firstCheapest (best : ProcessedFlight)
  (flights : list ProcessedFlight) : Prop :=
  exists before after,
    flights = before ++ best :: after
    /\ (forall flight, In flight before ->
          (priceNumeric best < priceNumeric flight)%Q)
    /\ (forall flight, In flight after ->
          (priceNumeric best <= priceNumeric flight)%Q).

(** No two flights of the list have the same sort key. *)
Definition distinctKeys (sortField : SortField)
  (flights : list ProcessedFlight) : Prop :=
  ForallOrdPairs
    (fun a b => ~ (sortKey sortField a == sortKey sortField b)%Q) flights.

(** The order a direction asks for between an earlier and a later
    flight. *)
Definition inOrder (sortField : SortField) (sortDirection : SortDirection)
  (a b : ProcessedFlight) : Prop :=
  match sortDirection with
  | Asc => (sortKey sortField a <= sortKey sortField b)%Q
  | Desc => (sortKey sortField b <= sortKey sortField a)%Q
  end.

Definition distinctFlights : list ProcessedFlight :=
  [ sampleFlight "x" 250 1; sampleFlight "y" 100 0; sampleFlight "z" 400 2 ].

(** ** components/filters/TimeFilter.tsx *)




(** ** Vocabulary of the further properties *)

(** [narrow] asks for at least what [wide] asks for: every range of
    [narrow] lies within that of [wide], and where [wide] has a selection,
    [narrow] has one too and it is part of that of [wide]. *)
Definition rangeWithin (inner outer : Q * Q) : Prop :=
  (fst outer <= fst inner)%Q /\ (snd inner <= snd outer)%Q.

Definition selectionWithin (inner outer : list string) : Prop :=
  outer = [] \/ (inner <> [] /\ incl inner outer).

Definition narrower (narrow wide : FilterState) : Prop :=
  rangeWithin (priceRange narrow) (priceRange wide)
  /\ selectionWithin (stops narrow) (stops wide)
  /\ selectionWithin (airlines narrow) (airlines wide)
  /\ rangeWithin (departureTimeRange narrow) (departureTimeRange wide)
  /\ rangeWithin (arrivalTimeRange narrow) (arrivalTimeRange wide)
  /\ rangeWithin (duration narrow) (duration wide).

(** The pages 1 to [totalFilteredPages], one after the other. *)
Definition allPages (sortedFlights : list ProcessedFlight)
  : list (list ProcessedFlight) :=
  map (fun page => paginatedSortedFlights sortedFlights (Z.of_nat page))
      (seq 1 (Z.to_nat (totalFilteredPages sortedFlights))).

Definition dearFlight : ProcessedFlight := sampleFlight "dear" 1200 1.

(** [price] lies in the bucket of fifty currency units that starts at
    [key]. *)
Definition inInterval (key : Z) (price : Q) : bool :=
  Qle_bool (inject_Z key) price && Qltb price (inject_Z (key + bucketSize)).

(** The greatest price for which every bucket key of the chart is an
    array index. *)
Definition greatestCharted : Q := 4000000000.

(** ** More of components/results/FlightCard.tsx *)

Record Layover := { layoverAirport : string; layoverDuration : Z }.

(** [Math.round(ms / 60000)] *)
Definition minutesBetween (ms : Z) : Z :=
  Qfloor (inject_Z ms / 60000 + (1 # 2)).

(** The loop of [getLayoverInfo]: one layover for each segment that has a
    next segment. *)
Fixpoint layoversOf `{Host} (segments : list Segment) : list Layover :=
  match segments with
  | currentSegment :: rest =>
      match rest with
      | nextSegment :: _ =>
          let arrivalTime := newDate (at_ (arrival currentSegment)) in
          let departureTime := newDate (at_ (departure nextSegment)) in
          {| layoverAirport := iataCode (arrival currentSegment);
             layoverDuration := minutesBetween (departureTime - arrivalTime) |}
          :: layoversOf rest
      | [] => []
      end
  | [] => []
  end.

(** [getLayoverInfo] for a flight and the first itinerary of its offer;
    [None] is [null]. *)
Definition getLayoverInfo `{Host} (flight : ProcessedFlight)
  (itinerary : Itinerary) : option (list Layover) :=
  if totalStops flight =? 0 then None
  else Some (layoversOf (segments itinerary)).

(** ** Shareable links (hooks/useLocalStorage.ts, components/ui/ShareButton.tsx,
       components/search/SearchForm.tsx) *)

Module Link.

(** Modelled from the spec: types/flight.ts is not among the sources;
    [SearchParams] has the fields the specification lists for it and the
    code reads.  [None] stands for [undefined] and for [null]. *)
Record SearchParams := {
  origin : string;
  destination : string;
  departureDate : string;
  returnDate : option string;
  adults : ext Z;
  children : option (ext Z);
  infants : option (ext Z);
  travelClass : option string;
  nonStop : option bool;
  currencyCode : option string;
  maxResults : option (ext Z)
}.

(** A [URLSearchParams] object: its name-value pairs, in order.  The query
    string of the address is taken to be these pairs: serializing them and
    parsing the result gives them back. *)
Definition Query := list (string * string).

(** [params.get(name)]: the first value under the name. *)
Fixpoint get (params : Query) (name : string) : option string :=
  match params with
  | [] => None
  | (n, v) :: rest => if String.eqb n name then Some v else get rest name
  end.

Definition without (params : Query) (name : string) : Query :=
  List.filter (fun pair => negb (String.eqb (fst pair) name)) params.

(** [params.set(name, value)]: the first pair under the name takes the
    value and the others go; without such a pair one is appended. *)
Fixpoint set (params : Query) (name value : string) : Query :=
  match params with
  | [] => [(name, value)]
  | (n, v) :: rest =>
      if String.eqb n name then (n, value) :: without rest name
      else (n, v) :: set rest name value
  end.

(** Truthiness of a string, of a number and of a flag that may be
    missing. *)
Definition truthyString (s : option string) : option string :=
  match s with
  | Some EmptyString | None => None
  | Some text => Some text
  end.

Definition truthyNumber (x : option (ext Z)) : option (ext Z) :=
  match x with
  | Some (Fin 0) | Some NaN | None => None
  | Some n => Some n
  end.

Definition digitChar (d : N) : ascii := ascii_of_N (48 + d).

(** The decimal digits of a natural number, the most significant first. *)
Fixpoint decimalDigits (fuel : nat) (n : N) (acc : list ascii) : list ascii :=
  match fuel with
  | O => acc
  | S fuel' =>
      let acc' := digitChar (n mod 10) :: acc in
      if (n / 10 =? 0)%N then acc' else decimalDigits fuel' (n / 10) acc'
  end.

Definition decimal (n : N) : list ascii :=
  decimalDigits (S (N.to_nat (N.log2 n))) n [].

(** [String(x)].  An integer is written with all its decimal digits,
    which is what JavaScript does for the integers it holds exactly, those
    below 2^53 in absolute value. *)
Definition Number_toString (x : ext Z) : string :=
  match x with
  | Fin z =>
      if z <? 0 then String "-" (ofChars (decimal (Z.to_N (- z))))
      else ofChars (decimal (Z.to_N z))
  | PosInfinity => "Infinity"
  | NegInfinity => "-Infinity"
  | NaN => "NaN"
  end.

(** White space that [parseInt] skips, among the code units below 256. *)
Definition isWhiteSpace (c : ascii) : bool :=
  let n := nat_of_ascii c in
  ((9 <=? n)%nat && (n <=? 13)%nat) || (n =? 32)%nat || (n =? 160)%nat.

Fixpoint trimStart (s : string) : string :=
  match s with
  | String c rest => if isWhiteSpace c then trimStart rest else s
  | EmptyString => s
  end.

Definition hexValue (c : ascii) : option Z :=
  let n := Z.of_nat (nat_of_ascii c) in
  if (48 <=? n) && (n <=? 57) then Some (n - 48)
  else if (65 <=? n) && (n <=? 70) then Some (n - 55)
  else if (97 <=? n) && (n <=? 102) then Some (n - 87)
  else None.

(** The value of the longest prefix of hexadecimal digits, if it has a
    digit. *)
Fixpoint hexPrefix (s : string) (acc : option Z) : option Z :=
  match s with
  | String c rest =>
      match hexValue c with
      | Some d =>
          hexPrefix rest
            (Some (match acc with Some a => a * 16 + d | None => d end))
      | None => acc
      end
  | EmptyString => acc
  end.

(** The digits that [parseInt] reads after the sign: hexadecimal after
    [0x] or [0X], decimal otherwise; [NaN] when there is no digit. *)
Definition parseDigits (sign : Z) (body : string) : ext Z :=
  let hex :=
    match body with
    | String c (String x rest) =>
        if Ascii.eqb c "0" && (Ascii.eqb x "x" || Ascii.eqb x "X")
        then Some rest else None
    | _ => None
    end in
  match hex with
  | Some rest =>
      match hexPrefix rest None with
      | Some value => Fin (sign * value)
      | None => NaN
      end
  | None =>
      match digits body with
      | ([], _) => NaN
      | (ds, _) => Fin (sign * parseInt ds)
      end
  end.

(** [parseInt(s)] without a radix: white space, a sign, then the
    digits. *)
Definition Number_parseInt (s : string) : ext Z :=
  let trimmed := trimStart s in
  match trimmed with
  | String c rest =>
      if Ascii.eqb c "-" then parseDigits (-1) rest
      else if Ascii.eqb c "+" then parseDigits 1 rest
      else parseDigits 1 trimmed
  | EmptyString => parseDigits 1 trimmed
  end.

(** [getQueryParams()] applied to the pairs of [window.location.search];
    [None] is [null]. *)
Definition getQueryParams (params : Query) : option SearchParams :=
  match truthyString (get params "origin"),
        truthyString (get params "destination") with
  | Some origin, Some destination =>
      let childrenStr := truthyString (get params "children") in
      let infantsStr := truthyString (get params "infants") in
      let maxResultsStr := truthyString (get params "maxResults") in
      Some
        {| origin := origin;
           destination := destination;
           departureDate :=
             match truthyString (get params "departureDate") with
             | Some date => date
             | None => EmptyString
             end;
           returnDate := truthyString (get params "returnDate");
           adults :=
             Number_parseInt
               match truthyString (get params "adults") with
               | Some text => text
               | None => "1"
               end;
           children := option_map Number_parseInt childrenStr;
           infants := option_map Number_parseInt infantsStr;
           travelClass := get params "travelClass";
           nonStop :=
             match get params "nonStop" with
             | Some text => if String.eqb text "true" then Some true else None
             | None => None
             end;
           currencyCode := truthyString (get params "currencyCode");
           maxResults := option_map Number_parseInt maxResultsStr |}
  | _, _ => None
  end.

(** [if (x) params.set(name, ..)] *)
Definition setIf (value : option string) (name : string) (params : Query)
  : Query :=
  match value with
  | Some text => set params name text
  | None => params
  end.

(** The pairs that [handleShare] of the share button puts in its link. *)
Definition handleShare (searchParams : SearchParams) : Query :=
  let params := [] in
  let params := set params "origin" (origin searchParams) in
  let params := set params "destination" (destination searchParams) in
  let params := set params "departureDate" (departureDate searchParams) in
  let params :=
    setIf (truthyString (returnDate searchParams)) "returnDate" params in
  let params := set params "adults" (Number_toString (adults searchParams)) in
  let params :=
    setIf (option_map Number_toString (truthyNumber (children searchParams)))
          "children" params in
  let params :=
    setIf (option_map Number_toString (truthyNumber (infants searchParams)))
          "infants" params in
  let params :=
    setIf (truthyString (travelClass searchParams)) "travelClass" params in
  setIf (match nonStop searchParams with
         | Some true => Some "true"
         | _ => None
         end) "nonStop" params.

(** The pairs that [setQueryParams] writes to the address, and that
    [getShareableLink] puts in its link: those of [handleShare], then the
    currency and the number of results. *)
Definition setQueryParams (searchParams : SearchParams) : Query :=
  let params := handleShare searchParams in
  let params :=
    setIf (truthyString (currencyCode searchParams)) "currencyCode" params in
  setIf (option_map Number_toString (truthyNumber (maxResults searchParams)))
        "maxResults" params.

Definition getShareableLink (searchParams : SearchParams) : Query :=
  setQueryParams searchParams.

(** The state of the search form that [handleSubmit] reads. *)
Inductive TripType := Roundtrip | Oneway.

Record Form := {
  selectedOrigin : string;
  selectedDestination : string;
  formDepartureDate : string;
  formReturnDate : string;
  formAdults : ext Z;
  tripType : TripType
}.

Definition isEmpty (s : string) : bool :=
  match s with EmptyString => true | _ => false end.

(** The search that [handleSubmit] passes to [onSearch]; [None] when it
    alerts and returns. *)
Definition handleSubmit (form : Form) : option SearchParams :=
  if isEmpty (selectedOrigin form) || isEmpty (selectedDestination form)
  then None
  else if isEmpty (formDepartureDate form) then None
  else if match tripType form with
          | Roundtrip => isEmpty (formReturnDate form)
          | Oneway => false
          end
  then None
  else
    Some {| origin := selectedOrigin form;
            destination := selectedDestination form;
            departureDate := formDepartureDate form;
            returnDate :=
              match tripType form with
              | Roundtrip => Some (formReturnDate form)
              | Oneway => None
              end;
            adults := formAdults form;
            children := None;
            infants := None;
            travelClass := None;
            nonStop := None;
            currencyCode := None;
            maxResults := Some (Fin 50) |}.

(** What a search becomes when it is written to the address and read
    back: an empty text, a zero count and a cleared flag are dropped. *)
Definition normalize (searchParams : SearchParams) : SearchParams :=
  {| origin := origin searchParams;
     destination := destination searchParams;
     departureDate := departureDate searchParams;
     returnDate := truthyString (returnDate searchParams);
     adults := adults searchParams;
     children := truthyNumber (children searchParams);
     infants := truthyNumber (infants searchParams);
     travelClass := truthyString (travelClass searchParams);
     nonStop :=
       match nonStop searchParams with
       | Some true => Some true
       | _ => None
       end;
     currencyCode := truthyString (currencyCode searchParams);
     maxResults := truthyNumber (maxResults searchParams) |}.

(** An integer that a number holds exactly, and that [String] writes with
    all its digits. *)
Definition plainNumber (x : ext Z) : Prop :=
  exists z, x = Fin z /\ - 2 ^ 53 < z < 2 ^ 53.

Definition plainOption (x : option (ext Z)) : Prop :=
  match x with
  | Some n => plainNumber n
  | None => True
  end.

Definition plain (searchParams : SearchParams) : Prop :=
  plainNumber (adults searchParams)
  /\ plainOption (children searchParams)
  /\ plainOption (infants searchParams)
  /\ plainOption (maxResults searchParams).

Definition sampleParams : SearchParams :=
  {| origin := "ACC";
     destination := "LHR";
     departureDate := "2024-03-15";
     returnDate := Some EmptyString;
     adults := Fin 2;
     children := Some (Fin 0);
     infants := Some (Fin 1);
     travelClass := Some "ECONOMY";
     nonStop := Some false;
     currencyCode := Some "EUR";
     maxResults := Some (Fin 50) |}.

Definition sampleForm : Form :=
  {| selectedOrigin := "ACC";
     selectedDestination := "LHR";
     formDepartureDate := "2024-03-15";
     formReturnDate := "2024-03-22";
     formAdults := Fin 2;
     tripType := Roundtrip |}.

End Link.

(** ** The access token of the flight service (service/amadeus.ts)

    The service keeps the token and the time, in milliseconds, from which
    it no longer trusts it.  Times are integers ([Date.now()]), the
    lifetime in the answer of the token endpoint is a number of seconds. *)

Module Amadeus.

Record Service := {
  accessToken : option string;
  tokenExpiry : Z
}.

(** The fields of a new [AmadeusService]. *)
Definition created : Service := {| accessToken := None; tokenExpiry := 0 |}.

Record AmadeusAuthResponse := {
  access_token : string;
  expires_in : Z
}.

(** [authenticate]: [response] is the answer of the token endpoint, [None]
    when the credentials are missing or the request fails, in which case
    the call throws and the fields are as before; [received] is the time
    read when the answer is there. *)
Definition authenticate (response : option AmadeusAuthResponse)
  (received : Z) (service : Service) : option Service :=
  match response with
  | Some data =>
      Some {| accessToken := Some (access_token data);
              tokenExpiry := received + (expires_in data - 300) * 1000 |}
  | None => None
  end.

(** [this.accessToken && this.tokenExpiry > now + 300000]. *)
Definition tokenValid (now : Z) (service : Service) : bool :=
  match accessToken service with
  | Some (String _ _) => now + 300000 <? tokenExpiry service
  | Some EmptyString | None => false
  end.

(** [ensureValidToken], together with whether it asked for a new token. *)
Definition ensureValidToken (now : Z) (response : option AmadeusAuthResponse)
  (received : Z) (service : Service) : bool * option Service :=
  if tokenValid now service then (false, Some service)
  else (true, authenticate response received service).

End Amadeus.

(** ** More of hooks/useFlights.ts *)

(** The filter state that [resetFilters] of [useFlightFilters] sets: the
    initial ranges of the flights at hand, no stop count, no airline, the
    full day.  A filter state holds finite numbers: [None] stands for a
    range with a bound that is not one. *)
Definition resetFilters (flights : list ProcessedFlight)
  : option FilterState :=
  let initialPriceRange := getPriceRange flights in
  let initialDurationRange := getDurationRange flights in
  match initialPriceRange, initialDurationRange with
  | (Fin minPrice, Fin maxPrice), (Fin minDuration, Fin maxDuration) =>
      Some {| priceRange := (inject_Z minPrice, inject_Z maxPrice);
              stops := [];
              airlines := [];
              departureTimeRange := (0, 23)%Q;
              arrivalTimeRange := (0, 23)%Q;
              duration := (inject_Z minDuration, inject_Z maxDuration) |}
  | _, _ => None
  end.

(** * Properties *)

(** ** Built-ins *)

Lemma Qltb_false (a b : Q) : Qltb a b = false <-> (b <= a)%Q.
Proof.
  unfold Qltb. rewrite negb_false_iff. apply Qle_bool_iff.
Qed.

Lemma outside_false (x : Q) (range : Q * Q) :
  Qltb x (fst range) || Qgtb x (snd range) = false <-> withinRange x range.
Proof.
  unfold withinRange, Qgtb. rewrite orb_false_iff, !Qltb_false. tauto.
Qed.

Lemma includes_In (xs : list string) (x : string) :
  includes xs x = true <-> In x xs.
Proof.
  unfold includes. rewrite existsb_exists. split.
  - intros (y & Hy & Heq). apply String.eqb_eq in Heq. now subst.
  - intros Hin. exists x. split; [assumption | apply String.eqb_refl].
Qed.

Lemma nonempty_length {A} (xs : list A) :
  (0 <? Z.of_nat (List.length xs)) = false <-> xs = [].
Proof.
  destruct xs as [|x xs]; simpl; split; easy.
Qed.

Lemma selection_false (xs : list string) (x : string) :
  (0 <? Z.of_nat (List.length xs)) && negb (includes xs x) = false
  <-> xs = [] \/ In x xs.
Proof.
  rewrite andb_false_iff, nonempty_length, negb_false_iff, includes_In.
  tauto.
Qed.

(** ** FilterEngine *)

Section FilterEngine.
Context `{Host}.

Lemma stopCategory_selected (selection : list string)
  (flight : ProcessedFlight) :
  0 <= totalStops flight ->
  In (stopCategory flight) selection
  <-> stopsSelected selection (totalStops flight).
Proof.
  intros Hstops. unfold stopCategory, stopsSelected.
  destruct (totalStops flight =? 0) eqn:H0.
  - apply Z.eqb_eq in H0. intuition lia.
  - apply Z.eqb_neq in H0.
    destruct (totalStops flight =? 1) eqn:H1.
    + apply Z.eqb_eq in H1. intuition lia.
    + apply Z.eqb_neq in H1. intuition lia.
Qed.

Lemma keepFlight_satisfies (filters : FilterState)
  (flight : ProcessedFlight) :
  0 <= totalStops flight ->
  keepFlight filters flight = true <-> satisfies filters flight.
Proof.
  intros Hstops. unfold keepFlight, satisfies.
  rewrite <- (stopCategory_selected _ _ Hstops).
  rewrite <- !outside_false, <- !selection_false.
  repeat match goal with
         | |- context [if ?b then false else _] => destruct b
         end; intuition congruence.
Qed.

(** C1: [applyFilters] retains a flight exactly when every dimension of
    the filter holds for it: price, departure hour, arrival hour and
    duration within their inclusive ranges, its stop label ("0", "1",
    "2+") in the stops selection unless that is empty, and its airline in
    the airlines selection unless that is empty.  The stop count of a
    processed flight is not negative. *)
Theorem applyFilters_retains_iff (flights : list ProcessedFlight)
  (filters : FilterState) (flight : ProcessedFlight) :
  0 <= totalStops flight ->
  In flight (applyFilters flights filters)
  <-> In flight flights /\ satisfies filters flight.
Proof.
  intros Hstops. unfold applyFilters.
  rewrite filter_In, (keepFlight_satisfies _ _ Hstops). reflexivity.
Qed.
End FilterEngine.

(** ** SortEngine *)

Section StableSort.
Context {A : Type} (cmp : A -> A -> Q).

Lemma insert_perm (x : A) (xs : list A) :
  Permutation (insert cmp x xs) (x :: xs).
Proof.
  induction xs as [|y rest IH]; simpl; [reflexivity|].
  destruct (Qle_bool (cmp x y) 0); [reflexivity|].
  rewrite IH. apply perm_swap.
Qed.

Lemma sort_perm (xs : list A) : Permutation (sort cmp xs) xs.
Proof.
  induction xs as [|x rest IH]; simpl; [reflexivity|].
  rewrite insert_perm. now constructor.
Qed.

Lemma sort_length (xs : list A) :
  List.length (sort cmp xs) = List.length xs.
Proof. apply Permutation_length, sort_perm. Qed.

(** A class of elements that the comparator cannot tell apart keeps
    its order. *)
Variable P : A -> bool.
Hypothesis tie : forall x y, P x = true -> P y = true -> (cmp x y == 0)%Q.

Lemma insert_filter (x : A) (xs : list A) :
  List.filter P (insert cmp x xs) = List.filter P (x :: xs).
Proof.
  induction xs as [|y rest IH]; [reflexivity|].
  cbn [insert]. destruct (Qle_bool (cmp x y) 0) eqn:Hle; [reflexivity|].
  cbn [List.filter] in *. rewrite IH.
  destruct (P x) eqn:Hx, (P y) eqn:Hy; try reflexivity.
  assert (Hxy : Qle_bool (cmp x y) 0 = true)
    by (apply Qle_bool_iff; rewrite (tie _ _ Hx Hy); apply Qle_refl).
  congruence.
Qed.

Lemma sort_filter (xs : list A) :
  List.filter P (sort cmp xs) = List.filter P xs.
Proof.
  induction xs as [|x rest IH]; [reflexivity|].
  cbn [sort]. rewrite insert_filter. cbn [List.filter]. now rewrite IH.
Qed.
End StableSort.

(** When the comparator ties on all the elements, the array is returned
    as it was. *)
Lemma sort_all_ties {A} (cmp : A -> A -> Q) (xs : list A) :
  (forall x y, In x xs -> In y xs -> (cmp x y == 0)%Q) ->
  sort cmp xs = xs.
Proof.
  induction xs as [|x rest IH]; intros Hties; [reflexivity|].
  cbn [sort]. rewrite IH by (intros; apply Hties; now right).
  destruct rest as [|y rest']; [reflexivity|].
  cbn [insert].
  assert (Hle : Qle_bool (cmp x y) 0 = true).
  { apply Qle_bool_iff. rewrite (Hties x y); [apply Qle_refl| |]; simpl; auto. }
  now rewrite Hle.
Qed.

Lemma comparator_asc (sortField : SortField) (a b : ProcessedFlight) :
  (comparator sortField Asc a b == sortKey sortField a - sortKey sortField b)%Q.
Proof.
  destruct sortField; simpl; try reflexivity.
  unfold Z.sub. rewrite inject_Z_plus, inject_Z_opp. reflexivity.
Qed.

Lemma comparator_desc (sortField : SortField) (a b : ProcessedFlight) :
  (comparator sortField Desc a b == - comparator sortField Asc a b)%Q.
Proof. reflexivity. Qed.

Lemma comparator_tie (sortField : SortField) (sortDirection : SortDirection)
  (a b : ProcessedFlight) :
  (sortKey sortField a == sortKey sortField b)%Q ->
  (comparator sortField sortDirection a b == 0)%Q.
Proof.
  intros Heq. destruct sortDirection.
  - rewrite comparator_asc, Heq. ring.
  - rewrite comparator_desc, comparator_asc, Heq. ring.
Qed.

Lemma sortFlights_stable (sortField : SortField)
  (sortDirection : SortDirection) (key : Q) (flights : list ProcessedFlight) :
  List.filter (sameKey sortField key) (sortFlights sortField sortDirection flights)
  = List.filter (sameKey sortField key) flights.
Proof.
  apply sort_filter. intros x y Hx Hy. apply comparator_tie.
  unfold sameKey in *. apply Qeq_bool_iff in Hx, Hy. now rewrite Hx, Hy.
Qed.

(** C4: the sort of [useFlightSort] is stable, returns a new array and
    leaves its input alone.  Run on a heap where [flights] holds [input],
    it returns a location that was free before, the heap is unchanged at
    [flights] and at every other old location, and the new array is a
    permutation of [input] in which, for every key value and for each sort
    field and direction, the flights with that key value stand in the order
    they had in [input]. *)
Theorem sortedFlights_stable_fresh (sortField : SortField)
  (sortDirection : SortDirection) (flights : loc) (h : heap)
  (input : list ProcessedFlight) :
  h !! flights = Some input ->
  let (sorted, h') := sortedFlights sortField sortDirection flights h in
  h !! sorted = None
  /\ sorted <> flights
  /\ h' !! flights = Some input
  /\ (forall l : loc, l <> sorted -> h' !! l = h !! l)
  /\ exists output : list ProcessedFlight,
       h' !! sorted = Some output
       /\ output = sortFlights sortField sortDirection input
       /\ Permutation output input
       /\ forall key : Q,
            List.filter (sameKey sortField key) output
            = List.filter (sameKey sortField key) input.
Proof.
  intros Hin. unfold sortedFlights.
  set (sorted := fresh (dom h)).
  assert (Hfree : h !! sorted = None)
    by (apply not_elem_of_dom, is_fresh).
  assert (Hne : sorted <> flights) by congruence.
  split; [exact Hfree|]. split; [exact Hne|]. split; [|split].
  - rewrite lookup_alter_ne, lookup_insert_ne by exact Hne. exact Hin.
  - intros l Hl. rewrite lookup_alter_ne, lookup_insert_ne by congruence.
    reflexivity.
  - exists (sortFlights sortField sortDirection input).
    rewrite lookup_alter_eq, lookup_insert_eq, Hin. simpl.
    split; [reflexivity|]. split; [reflexivity|].
    split; [apply sort_perm|].
    intros key. apply sortFlights_stable.
Qed.

(** *** Ties *)

(** C5, as stated, fails: five distinct flights all priced 120 come back
    in their input order in both directions, so the descending result is
    not the reverse of the ascending one. *)
Lemma equal_prices_desc_not_reversed :
  List.length fiveFlights = 5%nat
  /\ Forall (fun flight => (priceNumeric flight == 120)%Q) fiveFlights
  /\ sortFlights SortPrice Desc fiveFlights
     <> rev (sortFlights SortPrice Asc fiveFlights).
Proof.
  split; [reflexivity|]. split.
  - repeat constructor.
  - vm_compute. discriminate.
Qed.

(** C5, amended: for five flights all priced 120, sorting by price
    descending returns the same sequence as sorting by price ascending,
    and both are the input in its original order. *)
Theorem equal_prices_same_order (flights : list ProcessedFlight) :
  List.length flights = 5%nat ->
  Forall (fun flight => (priceNumeric flight == 120)%Q) flights ->
  sortFlights SortPrice Desc flights = sortFlights SortPrice Asc flights
  /\ sortFlights SortPrice Asc flights = flights.
Proof.
  intros _ Hprices. rewrite List.Forall_forall in Hprices.
  assert (Hties : forall d x y, In x flights -> In y flights ->
                    (comparator SortPrice d x y == 0)%Q).
  { intros d x y Hx Hy. apply comparator_tie. simpl.
    now rewrite (Hprices _ Hx), (Hprices _ Hy). }
  unfold sortFlights.
  rewrite !sort_all_ties by (intros; now apply Hties). split; reflexivity.
Qed.

Lemma equal_prices_same_order_witness :
  sortFlights SortPrice Desc fiveFlights = sortFlights SortPrice Asc fiveFlights
  /\ sortFlights SortPrice Asc fiveFlights = fiveFlights.
Proof.
  apply (equal_prices_same_order fiveFlights).
  - reflexivity.
  - repeat constructor.
Defined.

Lemma sortedFlights_stable_fresh_witness :
  let (sorted, h') := sortedFlights SortPrice Desc 1%positive heapOfFive in
  heapOfFive !! sorted = None
  /\ sorted <> 1%positive
  /\ h' !! 1%positive = Some fiveFlights
  /\ (forall l : loc, l <> sorted -> h' !! l = heapOfFive !! l)
  /\ exists output : list ProcessedFlight,
       h' !! sorted = Some output
       /\ output = sortFlights SortPrice Desc fiveFlights
       /\ Permutation output fiveFlights
       /\ forall key : Q,
            List.filter (sameKey SortPrice key) output
            = List.filter (sameKey SortPrice key) fiveFlights.
Proof.
  apply (sortedFlights_stable_fresh SortPrice Desc 1%positive heapOfFive
           fiveFlights).
  reflexivity.
Defined.

(** ** Pagination *)

Lemma totalFilteredPages_div (sortedFlights : list ProcessedFlight) :
  totalFilteredPages sortedFlights
  = (Z.of_nat (List.length sortedFlights) + 9) / 10.
Proof.
  unfold totalFilteredPages, pageSize, Qceiling, Qfloor.
  set (n := Z.of_nat (List.length sortedFlights)). cbn.
  rewrite Z.mul_1_r. Z.to_euclidean_division_equations. lia.
Qed.

Lemma firstn_clamped {A} (count : nat) (xs : list A) :
  firstn (Nat.min count (List.length xs)) xs = firstn count xs.
Proof.
  destruct (Nat.le_gt_cases count (List.length xs)) as [Hle|Hgt].
  - now rewrite Nat.min_l.
  - rewrite Nat.min_r, !firstn_all2 by lia. reflexivity.
Qed.

Lemma paginatedSortedFlights_window (sortedFlights : list ProcessedFlight)
  (page : Z) :
  1 <= page ->
  paginatedSortedFlights sortedFlights page
  = firstn (Z.to_nat pageSize)
      (skipn (Z.to_nat ((page - 1) * pageSize)) sortedFlights).
Proof.
  intros Hpage. unfold paginatedSortedFlights, slice, pageSize.
  set (len := List.length sortedFlights).
  set (start := (page - 1) * 10).
  assert (Hstart : 0 <= start) by (unfold start; lia).
  destruct (start <? 0) eqn:Hneg; [apply Z.ltb_lt in Hneg; lia|].
  destruct (start + 10 <? 0) eqn:Hneg'; [apply Z.ltb_lt in Hneg'; lia|].
  destruct (Z.le_gt_cases (Z.of_nat len) start) as [Hout|Hinside].
  - rewrite !Z.min_r by lia. rewrite Z.sub_diag, Nat2Z.id.
    rewrite !skipn_all2 by (fold len; lia). now rewrite !firstn_nil.
  - rewrite (Z.min_l start) by lia.
    rewrite <- (firstn_clamped (Z.to_nat 10)). f_equal.
    rewrite length_skipn. fold len. lia.
Qed.

(** C8: the page count is the ceiling of the number of filtered and sorted
    flights over the page size (the least count of pages of ten that holds
    them all); page [page] is the window of at most ten consecutive
    flights that starts after the first [(page - 1) * 10]; and 23 flights
    make 3 pages, the third holding exactly 3 flights. *)
Theorem pagination_window (sortedFlights : list ProcessedFlight) (page : Z) :
  1 <= page ->
  let count := Z.of_nat (List.length sortedFlights) in
  let pages := totalFilteredPages sortedFlights in
  ((pages - 1) * pageSize < count <= pages * pageSize)
  /\ paginatedSortedFlights sortedFlights page
     = firstn (Z.to_nat pageSize)
         (skipn (Z.to_nat ((page - 1) * pageSize)) sortedFlights)
  /\ (count = 23 ->
      pages = 3
      /\ List.length (paginatedSortedFlights sortedFlights 3) = 3%nat).
Proof.
  intros Hpage count pages. subst pages.
  rewrite totalFilteredPages_div. fold count. unfold pageSize.
  split; [Z.to_euclidean_division_equations; lia|].
  split; [now apply paginatedSortedFlights_window|].
  intros H23. split; [rewrite H23; reflexivity|].
  rewrite paginatedSortedFlights_window by lia.
  rewrite length_firstn, length_skipn. unfold pageSize. cbn. lia.
Qed.

Lemma pagination_window_witness :
  let count := Z.of_nat (List.length twentyThreeFlights) in
  let pages := totalFilteredPages twentyThreeFlights in
  ((pages - 1) * pageSize < count <= pages * pageSize)
  /\ paginatedSortedFlights twentyThreeFlights 3
     = firstn (Z.to_nat pageSize)
         (skipn (Z.to_nat ((3 - 1) * pageSize)) twentyThreeFlights)
  /\ (count = 23 ->
      pages = 3
      /\ List.length (paginatedSortedFlights twentyThreeFlights 3) = 3%nat).
Proof.
  apply (pagination_window twentyThreeFlights 3). lia.
Defined.

(** C3, as stated, fails: a search, its 23 flights and two clicks on
    "next" lead to page 3, where the index is in range; narrowing the price
    filter leaves 5 flights, hence one page, and the index is still 3, so
    the page shown is empty. *)
Lemma page_index_not_clamped :
  let after := step onPageThree (SetFilters narrowFilters) in
  fold_left step
    [ Navigate sampleSearch; FlightsLoaded twentyThreeFlights;
      PageChange 2; PageChange 3 ] initialState = onPageThree
  /\ @pageClamped sampleHost onPageThree
  /\ List.length (@sortedView sampleHost onPageThree) = 23%nat
  /\ List.length (@sortedView sampleHost after) = 5%nat
  /\ currentPage after = 3
  /\ totalFilteredPages (@sortedView sampleHost after) = 1
  /\ ~ @pageClamped sampleHost after
  /\ paginatedSortedFlights (@sortedView sampleHost after) (currentPage after)
     = [].
Proof.
  assert (H23 : List.length (@sortedView sampleHost onPageThree) = 23%nat)
    by (vm_compute; reflexivity).
  assert (H5 : List.length
                 (@sortedView sampleHost
                    (step onPageThree (SetFilters narrowFilters))) = 5%nat)
    by (vm_compute; reflexivity).
  cbv zeta. split; [reflexivity|]. unfold pageClamped.
  rewrite !totalFilteredPages_div, H23, H5.
  repeat split; try (vm_compute; congruence).
  - intros [_ Hle]. vm_compute in Hle. congruence.
Qed.

(** C3, amended: a change of the loaded flights, of the filters or of the
    sort leaves the page index as it is, neither clamped nor reset, however
    many such changes follow one another; a navigation resets it to 1
    exactly when the origin, the destination or the departure date of the
    search changed, and otherwise leaves it too. *)
Theorem page_index_kept (s : PageState) (events : list Event)
  (search : SearchSchema) :
  Forall (fun e => changesView e = true) events ->
  currentPage (fold_left step events s) = currentPage s
  /\ currentPage (step s (Navigate search))
     = (if searchKeyChanged (searchParams s) search then 1
        else currentPage s)
  /\ forall e : Event,
       currentPage (step s e) <> currentPage s ->
       match e with
       | PageChange _ => True
       | Navigate next =>
           searchKeyChanged (searchParams s) next = true
           /\ currentPage (step s e) = 1
       | _ => False
       end.
Proof.
  intros Hevents. split; [|split; [reflexivity|]].
  2:{ intros e Hmoved.
      destruct e as [next|page|flights|next|field]; simpl in *;
        try congruence; [|exact I].
      destruct (searchKeyChanged (searchParams s) next); [easy|congruence]. }
  revert s. induction Hevents as [|e rest He _ IH]; intros s; [reflexivity|].
  cbn [fold_left]. rewrite IH.
  destruct e; simpl in He; try discriminate; reflexivity.
Qed.

Lemma page_index_kept_witness :
  currentPage
    (fold_left step [SetFilters narrowFilters; ToggleSort SortDuration]
       onPageThree) = 3
  /\ currentPage (step onPageThree (Navigate sampleSearch)) = 3
  /\ forall e : Event,
       currentPage (step onPageThree e) <> 3 ->
       match e with
       | PageChange _ => True
       | Navigate next =>
           searchKeyChanged sampleSearch next = true
           /\ currentPage (step onPageThree e) = 1
       | _ => False
       end.
Proof.
  apply (page_index_kept onPageThree
           [SetFilters narrowFilters; ToggleSort SortDuration] sampleSearch).
  repeat constructor.
Defined.

(** ** Normalizer *)

Section Normalizer.
Context `{Host}.

Lemma processFlightOffer_malformed (offer : FlightOffer) :
  malformed offer -> processFlightOffer offer = Throw TypeError.
Proof.
  unfold malformed, processFlightOffer.
  destruct (itineraries offer) as [|firstItinerary rest]; [reflexivity|].
  intros Hsegments. simpl. now rewrite Hsegments.
Qed.

(** A well-formed offer is normalized, and its stop count is the number
    of segments of its first itinerary minus one, which is not
    negative. *)
Lemma processFlightOffer_wellformed (offer : FlightOffer) :
  ~ malformed offer ->
  exists flight firstItinerary,
    processFlightOffer offer = Ok flight
    /\ nth_error (itineraries offer) 0 = Some firstItinerary
    /\ totalStops flight
       = Z.of_nat (List.length (segments firstItinerary)) - 1
    /\ 0 <= totalStops flight.
Proof.
  unfold malformed, processFlightOffer.
  destruct (itineraries offer) as [|firstItinerary rest]; [tauto|].
  intros Hsegments. cbn [nth_error deref bind].
  destruct (segments firstItinerary) as [|first others] eqn:Hsegs;
    [tauto|].
  cbn [nth_error deref bind List.length].
  destruct (Z.of_nat (S (List.length others)) - 1 <? 0) eqn:Hneg;
    [apply Z.ltb_lt in Hneg; lia|].
  destruct (nth_error (first :: others)
              (Z.to_nat (Z.of_nat (S (List.length others)) - 1)))
    as [last|] eqn:Hlast.
  - cbn [deref bind]. eexists _, firstItinerary.
    split; [reflexivity|]. split; [reflexivity|].
    cbn [totalStops]. rewrite Hsegs. cbn [List.length]. lia.
  - apply nth_error_None in Hlast. cbn [List.length] in Hlast. lia.
Qed.

Lemma Array_map_throw {A B} (f : A -> outcome B) (xs : list A) (x : A) :
  In x xs -> f x = Throw TypeError -> Array_map f xs = Throw TypeError.
Proof.
  intros Hin Hthrow. induction xs as [|y rest IH]; [contradiction|].
  cbn [Array_map]. destruct Hin as [->|Hin].
  - now rewrite Hthrow.
  - destruct (f y) as [b|[]]; [|reflexivity].
    cbn [bind]. now rewrite (IH Hin).
Qed.

(** C6, amended: for an offer without itineraries or whose first
    itinerary has no segments, [processFlightOffer] throws a [TypeError]
    and substitutes no default; a batch is normalized by a plain [map],
    so the exception of one such offer leaves the whole batch without
    processed flights. *)
Theorem malformed_offer_aborts_batch (response : FlightOffersResponse)
  (bad : FlightOffer) :
  malformed bad ->
  In bad (data response) ->
  processFlightOffer bad = Throw TypeError
  /\ processedFlights (Some response) = Throw TypeError.
Proof.
  intros Hbad Hin. split; [now apply processFlightOffer_malformed|].
  unfold processedFlights.
  eapply Array_map_throw; [exact Hin|now apply processFlightOffer_malformed].
Qed.
End Normalizer.

(** C6, as stated, fails: an offer whose first itinerary has no segments
    sits between two offers that normalize on their own, and the batch
    yields no processed flights at all. *)
Lemma bad_offer_not_isolated :
  (exists flight, @processFlightOffer sampleHost goodOffer = Ok flight)
  /\ malformed badOffer
  /\ ~ exists flights,
         @processedFlights sampleHost (Some mixedBatch) = Ok flights.
Proof.
  split; [eexists; vm_compute; reflexivity|].
  split; [reflexivity|].
  intros [flights Hok]. vm_compute in Hok. discriminate.
Qed.

Lemma malformed_offer_aborts_batch_witness :
  @processFlightOffer sampleHost badOffer = Throw TypeError
  /\ @processedFlights sampleHost (Some mixedBatch) = Throw TypeError.
Proof.
  apply (@malformed_offer_aborts_batch sampleHost mixedBatch badOffer).
  - reflexivity.
  - simpl. auto.
Defined.

(** ** Minimum and maximum of the observed values *)

Lemma Math_min_cases (xs : list Q) :
  (xs = [] /\ Math_min xs = PosInfinity)
  \/ exists m, Math_min xs = Fin m /\ isMinimum m xs.
Proof.
  induction xs as [|x rest IH]; [left; split; reflexivity|].
  right. cbn [Math_min].
  destruct IH as [[-> ->]|(m & -> & Hin & Hlow)].
  - exists x. split; [reflexivity|]. split; [now left|].
    intros y [<-|[]]. apply Qle_refl.
  - destruct (Qle_bool x m) eqn:Hle.
    + apply Qle_bool_iff in Hle. exists x. split; [reflexivity|].
      split; [now left|]. intros y [<-|Hy]; [apply Qle_refl|].
      eapply Qle_trans; [exact Hle|now apply Hlow].
    + exists m. split; [reflexivity|]. split; [now right|].
      intros y [<-|Hy]; [|now apply Hlow].
      apply Qlt_le_weak, Qnot_le_lt. intros Hxm.
      apply Qle_bool_iff in Hxm. congruence.
Qed.

Lemma Math_max_cases (xs : list Q) :
  (xs = [] /\ Math_max xs = NegInfinity)
  \/ exists m, Math_max xs = Fin m /\ isMaximum m xs.
Proof.
  induction xs as [|x rest IH]; [left; split; reflexivity|].
  right. cbn [Math_max].
  destruct IH as [[-> ->]|(m & -> & Hin & Hhigh)].
  - exists x. split; [reflexivity|]. split; [now left|].
    intros y [<-|[]]. apply Qle_refl.
  - destruct (Qle_bool m x) eqn:Hle.
    + apply Qle_bool_iff in Hle. exists x. split; [reflexivity|].
      split; [now left|]. intros y [<-|Hy]; [apply Qle_refl|].
      eapply Qle_trans; [now apply Hhigh|exact Hle].
    + exists m. split; [reflexivity|]. split; [now right|].
      intros y [<-|Hy]; [|now apply Hhigh].
      apply Qlt_le_weak, Qnot_le_lt. intros Hmx.
      apply Qle_bool_iff in Hmx. congruence.
Qed.

Lemma isMinimum_unique (m m' : Q) (xs : list Q) :
  isMinimum m xs -> isMinimum m' xs -> (m == m')%Q.
Proof.
  intros [Hin Hlow] [Hin' Hlow']. apply Qle_antisym; auto.
Qed.

Lemma isMaximum_unique (m m' : Q) (xs : list Q) :
  isMaximum m xs -> isMaximum m' xs -> (m == m')%Q.
Proof.
  intros [Hin Hhigh] [Hin' Hhigh']. apply Qle_antisym; auto.
Qed.

(** ** Active filters *)

Lemma strictNe_false (q : Q) (n : ext Z) :
  strictNe q n = false <-> exists z, n = Fin z /\ (q == inject_Z z)%Q.
Proof.
  destruct n as [z| | |]; simpl.
  - rewrite negb_false_iff, Qeq_bool_iff. split.
    + intros Heq. now exists z.
    + intros (z' & [= <-] & Heq). exact Heq.
  - split; [discriminate|intros (z & Hz & _); discriminate].
  - split; [discriminate|intros (z & Hz & _); discriminate].
  - split; [discriminate|intros (z & Hz & _); discriminate].
Qed.

Lemma initial_range_default {A} (observe : A -> Q) (items : list A)
  (fallbackMax : Z) (range : Q * Q) :
  let initial :=
    if Z.of_nat (List.length items) =? 0 then (Fin 0, Fin fallbackMax)
    else (Math_floor (Math_min (map observe items)),
          Math_ceil (Math_max (map observe items))) in
  strictNe (fst range) (fst initial) = false
  /\ strictNe (snd range) (snd initial) = false
  <-> defaultRange (0, inject_Z fallbackMax)%Q (map observe items) range.
Proof.
  destruct items as [|item rest].
  - cbv zeta. change (Z.of_nat (List.length (@nil A)) =? 0) with true.
    cbv iota. cbn [fst snd map defaultRange].
    rewrite !strictNe_false. split.
    + intros [(z & [= <-] & Hfst) (z' & [= <-] & Hsnd)]. now split.
    + intros [Hfst Hsnd]. split; eexists; (split; [reflexivity|assumption]).
  - cbv zeta. change (Z.of_nat (List.length (item :: rest)) =? 0) with false.
    cbv iota. cbn [fst snd]. set (xs := map observe (item :: rest)).
    destruct (Math_min_cases xs) as [[Hnil _]|(lo & Hmin & Hlo)];
      [discriminate|].
    destruct (Math_max_cases xs) as [[Hnil _]|(hi & Hmax & Hhi)];
      [discriminate|].
    rewrite Hmin, Hmax. cbn [Math_floor Math_ceil].
    rewrite !strictNe_false. unfold defaultRange.
    change xs with (observe item :: map observe rest) at 3.
    cbv iota. split.
    + intros [(z & [= <-] & Hfst) (z' & [= <-] & Hsnd)].
      exists lo, hi. auto.
    + intros (lo' & hi' & Hlo' & Hhi' & Hfst & Hsnd).
      split.
      * exists (Qfloor lo). split; [reflexivity|].
        rewrite Hfst, (Qfloor_comp _ _ (isMinimum_unique _ _ _ Hlo' Hlo)).
        reflexivity.
      * exists (Qceiling hi). split; [reflexivity|].
        rewrite Hsnd, (Qceiling_comp _ _ (isMaximum_unique _ _ _ Hhi' Hhi)).
        reflexivity.
Qed.

Lemma hasActiveFilters_false (flights : list ProcessedFlight)
  (filters : FilterState) :
  hasActiveFilters flights filters = false
  <-> atDefaults defaultRange flights filters.
Proof.
  unfold hasActiveFilters, atDefaults, getPriceRange, getDurationRange.
  cbv zeta. rewrite !orb_false_iff, !nonempty_length, !negb_false_iff,
    !Qeq_bool_iff.
  pose proof (initial_range_default priceNumeric flights 1000
                (priceRange filters)) as Hprice.
  pose proof (initial_range_default totalDuration flights 1440
                (duration filters)) as Hduration.
  cbv zeta in Hprice, Hduration.
  change (0, inject_Z 1000)%Q with (0, 1000)%Q in Hprice.
  change (0, inject_Z 1440)%Q with (0, 1440)%Q in Hduration.
  rewrite <- Hprice, <- Hduration. tauto.
Qed.

(** C9, amended: [hasActiveFilters] is true exactly when some dimension
    differs from its no-op value, where the no-op values are the empty
    stops and airlines selections, the hour ranges [[0, 23]], and for price
    and duration the floor of the least and the ceiling of the greatest
    value observed across the full flight set ([[0, 1000]] and [[0, 1440]]
    when the set is empty). *)
Theorem hasActiveFilters_iff (flights : list ProcessedFlight)
  (filters : FilterState) :
  hasActiveFilters flights filters = true
  <-> ~ atDefaults defaultRange flights filters.
Proof.
  rewrite <- hasActiveFilters_false.
  destruct (hasActiveFilters flights filters); split; congruence.
Qed.

(** C9, as stated, fails: with one flight priced 100.5, a filter whose
    price range is the observed minimum and maximum, and every other
    dimension at its no-op value, is reported active, because the code
    compares against [[100, 101]]. *)
Lemma observed_range_reported_active :
  atDefaults observedRange [halfPricedFlight] observedFilters
  /\ hasActiveFilters [halfPricedFlight] observedFilters = true
  /\ getPriceRange [halfPricedFlight] = (Fin 100, Fin 101).
Proof.
  split; [|split; reflexivity].
  unfold atDefaults. repeat (split; [reflexivity|]). split.
  - exists (201 # 2), (201 # 2). cbn.
    repeat split; try reflexivity; try (now left);
      intros x [<-|[]]; apply Qle_refl.
  - exists 390%Q, 390%Q. cbn.
    repeat split; try reflexivity; try (now left);
      intros x [<-|[]]; apply Qle_refl.
Qed.

(** ** PriceAggregator *)

Section ObjectFacts.
Context {V : Type}.

Lemma Object_set_fresh (o : list (Z * V)) (key : Z) (v : V) :
  ~ In key (map fst o) -> Object_set o key v = o ++ [(key, v)].
Proof.
  induction o as [|[k w] rest IH]; intros Hfresh; [reflexivity|].
  cbn [Object_set]. destruct (k =? key) eqn:Hk.
  - apply Z.eqb_eq in Hk. exfalso. apply Hfresh. now left.
  - cbn. rewrite IH; [reflexivity|]. intros Hin. apply Hfresh. now right.
Qed.

Lemma Object_get_None (o : list (Z * V)) (key : Z) :
  Object_get o key = None -> forall kv, In kv o -> (fst kv =? key) = false.
Proof.
  unfold Object_get. intros Hnone kv Hin.
  destruct (find (fun kv => fst kv =? key) o) eqn:Hfind; [discriminate|].
  exact (find_none _ _ Hfind kv Hin).
Qed.

(** A guarded mutation of the value under [key] is a [map] over the
    properties, whether or not the key is present. *)
Lemma guarded_update (o : list (Z * V)) (key : Z) (f : V -> V) :
  match Object_get o key with
  | Some _ => Object_update o key f
  | None => o
  end = Object_update o key f.
Proof.
  destruct (Object_get o key) eqn:Hget; [reflexivity|].
  unfold Object_update. rewrite <- (map_id o) at 1.
  apply map_ext_in. intros kv Hin.
  now rewrite (Object_get_None _ _ Hget kv Hin).
Qed.

Lemma partition_perm {A} (f : A -> bool) (xs : list A) :
  Permutation (List.filter f xs ++ List.filter (fun x => negb (f x)) xs) xs.
Proof.
  induction xs as [|x rest IH]; [reflexivity|].
  cbn [List.filter]. destruct (f x); cbn [negb].
  - cbn. now constructor.
  - rewrite <- Permutation_middle. now constructor.
Qed.

Lemma Object_entries_perm (o : list (Z * V)) :
  Permutation (Object_entries o) o.
Proof.
  unfold Object_entries. rewrite sort_perm. apply partition_perm.
Qed.
End ObjectFacts.

Lemma list_sum_perm (xs ys : list nat) :
  Permutation xs ys -> list_sum xs = list_sum ys.
Proof.
  induction 1 as [|x xs ys _ IH|x y xs|xs ys zs _ IH1 _ IH2];
    unfold list_sum in *; cbn [fold_right] in *; lia.
Qed.

(** *** The keys of the buckets *)

Lemma keysFrom_In (count : nat) (i key : Z) :
  In key (keysFrom count i)
  <-> exists j, 0 <= j < Z.of_nat count /\ key = i + bucketSize * j.
Proof.
  revert i. induction count as [|count IH]; intros i.
  - cbn. split; [tauto|]. intros (j & Hj & _). lia.
  - cbn [keysFrom In]. rewrite IH. unfold bucketSize. split.
    + intros [<-|(j & Hj & ->)].
      * exists 0. lia.
      * exists (j + 1). lia.
    + intros (j & Hj & ->). destruct (Z.eq_dec j 0) as [->|Hne].
      * left. lia.
      * right. exists (j - 1). lia.
Qed.

Lemma keysFrom_NoDup (count : nat) (i : Z) : List.NoDup (keysFrom count i).
Proof.
  revert i. induction count as [|count IH]; intros i; cbn; constructor.
  - rewrite keysFrom_In. unfold bucketSize. intros (j & Hj & Hkey). lia.
  - apply IH.
Qed.

Lemma iterations_succ (i max : Z) :
  i <= max -> iterations i max = S (iterations (i + bucketSize) max).
Proof.
  intros Hle. unfold iterations, bucketSize.
  assert (Hdiv : (max - (i + 50)) / 50 = (max - i) / 50 - 1)
    by (Z.to_euclidean_division_equations; lia).
  assert (Hpos : 0 <= (max - i) / 50)
    by (Z.to_euclidean_division_equations; lia).
  rewrite Hdiv. lia.
Qed.

Lemma iterations_zero (i max : Z) : max < i -> iterations i max = O.
Proof.
  intros Hlt. unfold iterations, bucketSize.
  assert (Hneg : (max - i) / 50 < 0)
    by (Z.to_euclidean_division_equations; lia).
  lia.
Qed.

(** With at least [iterations i max] units of fuel the loop ends because
    its condition fails, and it has created the keys from [i] to [max]. *)
Lemma initBuckets_keys (fuel : nat) (i max : Z)
  (buckets : list (Z * Counts)) :
  (iterations i max <= fuel)%nat ->
  (forall key, In key (map fst buckets) -> key < i) ->
  initBuckets fuel i max buckets
  = buckets
    ++ map (fun key => (key, zeroCounts)) (keysFrom (iterations i max) i).
Proof.
  revert i buckets. induction fuel as [|fuel IH]; intros i buckets Hfuel Hold.
  - replace (iterations i max) with O by lia. cbn. now rewrite app_nil_r.
  - cbn [initBuckets]. destruct (i <=? max) eqn:Hle.
    + apply Z.leb_le in Hle. rewrite (iterations_succ _ _ Hle) in *.
      rewrite Object_set_fresh
        by (intros Hin; apply Hold in Hin; lia).
      rewrite IH.
      * cbn [keysFrom map]. now rewrite <- app_assoc.
      * lia.
      * intros key. rewrite map_app, in_app_iff. unfold bucketSize.
        intros [Hin|[<-|[]]]; [apply Hold in Hin; lia|cbn; lia].
    + apply Z.leb_gt in Hle. rewrite (iterations_zero _ _ Hle).
      cbn. now rewrite app_nil_r.
Qed.

(** *** Counting *)

Lemma filter_length_perm {A} (P : A -> bool) (xs ys : list A) :
  Permutation xs ys ->
  List.length (List.filter P xs) = List.length (List.filter P ys).
Proof.
  induction 1 as [|x xs ys _ IH|x y xs|xs ys zs _ IH1 _ IH2];
    cbn [List.filter]; try reflexivity.
  - destruct (P x); cbn [List.length]; now rewrite IH.
  - destruct (P x), (P y); reflexivity.
  - now rewrite IH1.
Qed.

Lemma bucketCount_cons (key : Z) (price : Q) (prices : list Q) :
  bucketCount key (price :: prices)
  = ((if inBucket key price then 1 else 0) + bucketCount key prices)%nat.
Proof.
  unfold bucketCount. cbn [List.filter].
  destruct (inBucket key price); reflexivity.
Qed.

(** After the first loop every bucket has gained the number of prices
    that fall in it. *)
Lemma countAll_fold (prices : list Q) (buckets : list (Z * Counts)) :
  fold_left countAll prices buckets
  = map (fun kv =>
           (fst kv,
            {| all := all (snd kv) + bucketCount (fst kv) prices;
               filteredCount := filteredCount (snd kv) |}))
        buckets.
Proof.
  revert buckets. induction prices as [|price rest IH]; intros buckets.
  - cbn [fold_left]. rewrite <- (map_id buckets) at 1.
    apply map_ext. intros [key [a f]]. cbn. now rewrite Nat.add_0_r.
  - cbn [fold_left]. rewrite IH. unfold countAll.
    rewrite guarded_update. unfold Object_update. rewrite map_map.
    apply map_ext. intros [key [a f]]. cbn [fst snd].
    rewrite bucketCount_cons. unfold inBucket. rewrite (Z.eqb_sym key).
    destruct (bucketOf price =? key); cbn [fst snd all filteredCount];
      do 2 f_equal; lia.
Qed.

Lemma countFiltered_fold (prices : list Q) (buckets : list (Z * Counts)) :
  fold_left countFiltered prices buckets
  = map (fun kv =>
           (fst kv,
            {| all := all (snd kv);
               filteredCount :=
                 filteredCount (snd kv) + bucketCount (fst kv) prices |}))
        buckets.
Proof.
  revert buckets. induction prices as [|price rest IH]; intros buckets.
  - cbn [fold_left]. rewrite <- (map_id buckets) at 1.
    apply map_ext. intros [key [a f]]. cbn. now rewrite Nat.add_0_r.
  - cbn [fold_left]. rewrite IH. unfold countFiltered.
    rewrite guarded_update. unfold Object_update. rewrite map_map.
    apply map_ext. intros [key [a f]]. cbn [fst snd].
    rewrite bucketCount_cons. unfold inBucket. rewrite (Z.eqb_sym key).
    destruct (bucketOf price =? key); cbn [fst snd all filteredCount];
      do 2 f_equal; lia.
Qed.

Lemma chartData_empty (priceTrend : PriceTrend) :
  current priceTrend = [] -> chartData priceTrend = [].
Proof.
  intros Hempty. unfold chartData. now rewrite Hempty.
Qed.

(** With at least one all-flights price the chart is the histogram over
    the keys between the extreme prices, read in the order of
    [Object.entries]. *)
Lemma chartData_histogram (priceTrend : PriceTrend) :
  current priceTrend <> [] ->
  exists lo hi,
    isMinimum lo (map pointPrice (current priceTrend))
    /\ isMaximum hi (map pointPrice (current priceTrend))
    /\ chartData priceTrend
       = map toChartPoint
           (Object_entries
              (histogram (bucketKeys lo hi)
                 (map pointPrice (current priceTrend))
                 (map pointPrice (filtered priceTrend)))).
Proof.
  intros Hcurrent. unfold chartData.
  set (allPrices := map pointPrice (current priceTrend)).
  set (filteredPrices := map pointPrice (filtered priceTrend)).
  assert (Hlen : List.length allPrices <> O).
  { unfold allPrices. rewrite length_map.
    destruct (current priceTrend); [congruence|discriminate]. }
  destruct (Z.of_nat (List.length (current priceTrend)) =? 0) eqn:Hzero.
  { apply Z.eqb_eq in Hzero. unfold allPrices in Hlen.
    rewrite length_map in Hlen. lia. }
  rewrite sort_length.
  destruct (Z.of_nat (List.length allPrices) =? 0) eqn:Hzero';
    [apply Z.eqb_eq in Hzero'; lia|].
  destruct (Math_min_cases (sort ascending allPrices))
    as [[Hnil _]|(lo & -> & Hlo)].
  { apply (f_equal (@List.length Q)) in Hnil. rewrite sort_length in Hnil.
    cbn in Hnil. lia. }
  destruct (Math_max_cases (sort ascending allPrices))
    as [[Hnil _]|(hi & -> & Hhi)].
  { apply (f_equal (@List.length Q)) in Hnil. rewrite sort_length in Hnil.
    cbn in Hnil. lia. }
  cbn [divc Math_floor Math_ceil mulc].
  exists lo, hi. split; [|split].
  - destruct Hlo as [Hin Hlow]. split.
    + eapply Permutation_in; [apply sort_perm|exact Hin].
    + intros x Hx. apply Hlow.
      eapply Permutation_in; [symmetry; apply sort_perm|exact Hx].
  - destruct Hhi as [Hin Hhigh]. split.
    + eapply Permutation_in; [apply sort_perm|exact Hin].
    + intros x Hx. apply Hhigh.
      eapply Permutation_in; [symmetry; apply sort_perm|exact Hx].
  - rewrite initBuckets_keys; [|reflexivity|intros key []].
    rewrite countAll_fold, countFiltered_fold. cbn [app].
    rewrite !map_map. cbn [fst snd all filteredCount zeroCounts].
    f_equal. f_equal. unfold histogram, bucketKeys.
    apply map_ext. intros key. cbn [Nat.add].
    unfold bucketCount.
    now rewrite !(filter_length_perm _ _ _ (sort_perm ascending _)).
Qed.

(** *** Every price has its bucket *)

Lemma Qdiv_le_compat (x y : Q) :
  (x <= y)%Q -> (x / inject_Z bucketSize <= y / inject_Z bucketSize)%Q.
Proof.
  intros Hle. unfold Qdiv. apply Qmult_le_compat_r; [exact Hle|].
  unfold bucketSize. cbn. discriminate.
Qed.

Lemma bucketOf_in_keys (lo hi price : Q) :
  (lo <= price)%Q -> (price <= hi)%Q ->
  In (bucketOf price) (bucketKeys lo hi).
Proof.
  intros Hlo Hhi. unfold bucketKeys, bucketOf. cbv zeta.
  set (zlo := Qfloor (lo / inject_Z bucketSize)).
  set (zhi := Qceiling (hi / inject_Z bucketSize)).
  set (zp := Qfloor (price / inject_Z bucketSize)).
  assert (Hlow : zlo <= zp) by (apply Qfloor_resp_le, Qdiv_le_compat, Hlo).
  assert (Hhigh : zp <= zhi).
  { apply Z.le_trans with (Qfloor (hi / inject_Z bucketSize)).
    - apply Qfloor_resp_le, Qdiv_le_compat, Hhi.
    - rewrite Zle_Qle. apply Qle_floor_ceiling. }
  rewrite keysFrom_In. exists (zp - zlo). unfold iterations, bucketSize.
  replace (zhi * 50 - zlo * 50) with ((zhi - zlo) * 50) by lia.
  rewrite Z.div_mul by lia. lia.
Qed.

Lemma list_sum_cons (x : nat) (xs : list nat) :
  list_sum (x :: xs) = (x + list_sum xs)%nat.
Proof. reflexivity. Qed.

Lemma indicator_zero (key : Z) (keys : list Z) :
  ~ In key keys ->
  list_sum (map (fun k => if k =? key then 1%nat else 0%nat) keys) = O.
Proof.
  induction keys as [|k rest IH]; intros Hfresh; [reflexivity|].
  cbn [map]. rewrite list_sum_cons, IH by (intros Hin; apply Hfresh; now right).
  destruct (k =? key) eqn:Hk; [|reflexivity].
  apply Z.eqb_eq in Hk. exfalso. apply Hfresh. now left.
Qed.

Lemma indicator_sum (key : Z) (keys : list Z) :
  List.NoDup keys -> In key keys ->
  list_sum (map (fun k => if k =? key then 1%nat else 0%nat) keys) = 1%nat.
Proof.
  induction 1 as [|k rest Hfresh _ IH]; intros Hin; [contradiction|].
  cbn [map]. rewrite list_sum_cons. destruct (k =? key) eqn:Hk.
  - apply Z.eqb_eq in Hk. subst k. now rewrite indicator_zero.
  - apply Z.eqb_neq in Hk. destruct Hin as [->|Hin]; [congruence|].
    now rewrite (IH Hin).
Qed.

(** Over distinct keys that cover the buckets of all the prices, the
    bucket counts add up to the number of prices. *)
Lemma bucketCount_sum (keys : list Z) (prices : list Q) :
  List.NoDup keys ->
  (forall price, In price prices -> In (bucketOf price) keys) ->
  list_sum (map (fun key => bucketCount key prices) keys)
  = List.length prices.
Proof.
  intros Hdistinct. induction prices as [|price rest IH]; intros Hcover.
  - clear. induction keys as [|key keys IH]; [reflexivity|].
    cbn [map]. now rewrite list_sum_cons, IH.
  - cbn [List.length]. rewrite <- Nat.add_1_l.
    rewrite <- (indicator_sum (bucketOf price) keys Hdistinct)
      by (apply Hcover; now left).
    rewrite <- IH by (intros; apply Hcover; now right).
    clear. induction keys as [|key keys IH]; [reflexivity|].
    cbn [map]. rewrite !list_sum_cons, bucketCount_cons, IH.
    unfold inBucket. rewrite (Z.eqb_sym key). lia.
Qed.

Lemma chart_sums (keys : list Z) (allPrices filteredPrices : list Q) :
  let chart :=
    map toChartPoint (Object_entries (histogram keys allPrices filteredPrices))
  in
  list_sum (map allFlights chart)
  = list_sum (map (fun key => bucketCount key allPrices) keys)
  /\ list_sum (map chartFiltered chart)
     = list_sum (map (fun key => bucketCount key filteredPrices) keys).
Proof.
  cbv zeta. rewrite !map_map. split.
  - rewrite (list_sum_perm _ _
               (Permutation_map _ (Object_entries_perm _))).
    unfold histogram. now rewrite map_map.
  - rewrite (list_sum_perm _ _
               (Permutation_map _ (Object_entries_perm _))).
    unfold histogram. now rewrite map_map.
Qed.

(** Bucket conservation for any price trend whose filtered prices occur
    among its all-flights prices. *)
Lemma chartData_conservation (priceTrend : PriceTrend) :
  incl (map pointPrice (filtered priceTrend))
       (map pointPrice (current priceTrend)) ->
  list_sum (map allFlights (chartData priceTrend))
  = List.length (current priceTrend)
  /\ list_sum (map chartFiltered (chartData priceTrend))
     = List.length (filtered priceTrend).
Proof.
  intros Hincl. destruct (current priceTrend) as [|point rest] eqn:Hcurrent.
  - rewrite chartData_empty by exact Hcurrent.
    destruct (filtered priceTrend) as [|extra others]; [split; reflexivity|].
    exfalso. apply (Hincl (pointPrice extra)). now left.
  - destruct (chartData_histogram priceTrend) as (lo & hi & Hlo & Hhi & ->);
      [congruence|].
    rewrite Hcurrent in *.
    pose proof (chart_sums (bucketKeys lo hi)
                  (map pointPrice (point :: rest))
                  (map pointPrice (filtered priceTrend))) as [Hall Hfiltered].
    cbv zeta in Hall, Hfiltered. rewrite Hall, Hfiltered.
    assert (Hcover : forall price,
               In price (map pointPrice (point :: rest)) ->
               In (bucketOf price) (bucketKeys lo hi)).
    { intros price Hin. apply bucketOf_in_keys; [now apply Hlo|now apply Hhi]. }
    rewrite !bucketCount_sum, !length_map; auto using keysFrom_NoDup.
    all: unfold bucketKeys; apply keysFrom_NoDup.
Qed.

(** *** Sub-multisets of prices *)

Section SubMultiset.
Variable P : Q -> bool.
Hypothesis P_compat : forall x y, (x == y)%Q -> P x = P y.

Lemma removeOne_filter (x : Q) (xs : list Q) :
  (exists y, In y xs /\ (x == y)%Q) ->
  List.length (List.filter P xs)
  = ((if P x then 1 else 0)
     + List.length (List.filter P (removeOne x xs)))%nat.
Proof.
  induction xs as [|y rest IH]; intros (z & Hin & Heq); [contradiction|].
  cbn [removeOne List.filter]. destruct (Qeq_bool x y) eqn:Hxy.
  - apply Qeq_bool_iff in Hxy. rewrite (P_compat _ _ Hxy).
    destruct (P y); reflexivity.
  - destruct Hin as [->|Hin].
    + apply Qeq_bool_iff in Heq. congruence.
    + cbn [List.filter]. specialize (IH (ex_intro _ z (conj Hin Heq))).
      destruct (P y); cbn [List.length]; lia.
Qed.
End SubMultiset.

Lemma Qeq_bool_compat (q x y : Q) :
  (x == y)%Q -> Qeq_bool q x = Qeq_bool q y.
Proof.
  intros Hxy. destruct (Qeq_bool q x) eqn:Hx, (Qeq_bool q y) eqn:Hy;
    try reflexivity.
  - apply Qeq_bool_iff in Hx. rewrite Hx, Hxy in Hy.
    pose proof (Qeq_bool_refl y). congruence.
  - apply Qeq_bool_iff in Hy. rewrite Hy, <- Hxy in Hx.
    pose proof (Qeq_bool_refl x). congruence.
Qed.

Lemma inBucket_compat (key : Z) (x y : Q) :
  (x == y)%Q -> inBucket key x = inBucket key y.
Proof.
  intros Hxy. unfold inBucket, bucketOf. now rewrite Hxy.
Qed.

Lemma occurrences_witness (x : Q) (xs : list Q) :
  (1 <= occurrences x xs)%nat -> exists y, In y xs /\ (x == y)%Q.
Proof.
  unfold occurrences. intros Hpos.
  destruct (List.filter (Qeq_bool x) xs) as [|y rest] eqn:Hfilter;
    [cbn in Hpos; lia|].
  assert (Hin : In y (List.filter (Qeq_bool x) xs))
    by (rewrite Hfilter; now left).
  apply filter_In in Hin. destruct Hin as [Hin Heq].
  exists y. split; [exact Hin|now apply Qeq_bool_iff].
Qed.

(** A sub-multiset has no more elements than the whole in any class that
    is closed under equality of numbers. *)
Lemma subMultiset_filter (P : Q -> bool) (part whole : list Q) :
  (forall x y, (x == y)%Q -> P x = P y) ->
  subMultiset part whole ->
  (List.length (List.filter P part) <= List.length (List.filter P whole))%nat.
Proof.
  intros Hcompat. revert whole.
  induction part as [|x rest IH]; intros whole Hsub; [cbn; lia|].
  assert (Hocc : exists y, In y whole /\ (x == y)%Q).
  { apply occurrences_witness. specialize (Hsub x).
    unfold occurrences in Hsub at 1. cbn [List.filter] in Hsub.
    rewrite Qeq_bool_refl in Hsub. cbn [List.length] in Hsub. lia. }
  assert (Hrest : subMultiset rest (removeOne x whole)).
  { intros q. specialize (Hsub q). unfold occurrences in *.
    rewrite (removeOne_filter (Qeq_bool q) (Qeq_bool_compat q) x whole Hocc)
      in Hsub.
    cbn [List.filter] in Hsub.
    destruct (Qeq_bool q x); cbn [List.length] in Hsub; lia. }
  specialize (IH _ Hrest).
  rewrite (removeOne_filter P Hcompat x whole Hocc).
  cbn [List.filter]. destruct (P x); cbn [List.length]; lia.
Qed.

Lemma generatePriceData_prices `{Host} (flights : list ProcessedFlight) :
  map pointPrice (generatePriceData flights) = map priceNumeric flights.
Proof.
  unfold generatePriceData. rewrite map_map. reflexivity.
Qed.

Lemma chart_Forall (Q' : ChartPoint -> Prop) (keys : list Z)
  (allPrices filteredPrices : list Q) :
  (forall key,
      Q' {| chartPrice := key;
            allFlights := bucketCount key allPrices;
            chartFiltered := bucketCount key filteredPrices |}) ->
  Forall Q'
    (map toChartPoint
       (Object_entries (histogram keys allPrices filteredPrices))).
Proof.
  intros Hall. apply List.Forall_forall. intros point Hin.
  apply in_map_iff in Hin. destruct Hin as (entry & <- & Hin).
  apply (Permutation_in _ (Object_entries_perm _)) in Hin.
  unfold histogram in Hin. apply in_map_iff in Hin.
  destruct Hin as (key & <- & _). apply Hall.
Qed.

Section PriceAggregator.
Context `{Host}.

(** C2: for the price trend of a flight set and of the flights of it
    that pass the filter, the [allFlights] counts of the chart add up to
    the size of the flight set and the [filtered] counts add up to the
    number of flights that pass. *)
Theorem bucket_conservation (flights : list ProcessedFlight)
  (filters : FilterState) :
  let shown := filteredFlights flights filters in
  let chart := chartData (usePriceTrend flights shown) in
  list_sum (map allFlights chart) = List.length flights
  /\ list_sum (map chartFiltered chart) = List.length shown.
Proof.
  intros shown chart.
  destruct (chartData_conservation (usePriceTrend flights shown))
    as [Hall Hfiltered].
  - cbn [current filtered usePriceTrend].
    rewrite !generatePriceData_prices. intros price Hin.
    apply in_map_iff in Hin. destruct Hin as (flight & <- & Hin).
    apply in_map. unfold shown, filteredFlights, applyFilters in Hin.
    now apply filter_In in Hin.
  - cbn [current filtered usePriceTrend] in Hall, Hfiltered.
    unfold generatePriceData in Hall, Hfiltered.
    rewrite !length_map in Hall, Hfiltered. now split.
Qed.

(** C7: with both flight sets empty the chart has no buckets and the
    three statistics are the number zero; with flights but an empty
    filtered set the statistics are still the number zero (neither [NaN]
    nor an infinity), while the chart has buckets whose [allFlights]
    counts add up to the number of flights and whose [filtered] counts
    are all zero. *)
Theorem degenerate_aggregation (flights : list ProcessedFlight) :
  flights <> [] ->
  (let trend := usePriceTrend [] [] in
   chartData trend = []
   /\ lowest trend = Fin 0%Q /\ highest trend = Fin 0%Q
   /\ average trend = Fin 0%Q)
  /\ (let trend := usePriceTrend flights [] in
      lowest trend = Fin 0%Q /\ highest trend = Fin 0%Q
      /\ average trend = Fin 0%Q
      /\ chartData trend <> []
      /\ list_sum (map allFlights (chartData trend)) = List.length flights
      /\ Forall (fun point => chartFiltered point = O) (chartData trend)).
Proof.
  intros Hflights. split; [repeat split|].
  cbv zeta. do 3 (split; [reflexivity|]).
  destruct (chartData_conservation (usePriceTrend flights []))
    as [Hall _]; [intros price []|].
  cbn [current usePriceTrend] in Hall. unfold generatePriceData in Hall.
  rewrite length_map in Hall.
  split; [|split; [exact Hall|]].
  - intros Hempty. rewrite Hempty in Hall. cbn in Hall.
    destruct flights; [congruence|discriminate].
  - destruct (chartData_histogram (usePriceTrend flights []))
      as (lo & hi & _ & _ & ->).
    + cbn [current usePriceTrend]. unfold generatePriceData.
      destruct flights; [congruence|discriminate].
    + apply chart_Forall. intros key. reflexivity.
Qed.
End PriceAggregator.

(** C10: when the filtered prices form a sub-multiset of the all-flights
    prices, no bucket of the chart counts more filtered flights than
    flights. *)
Theorem filtered_within_all (priceTrend : PriceTrend) :
  subMultiset (map pointPrice (filtered priceTrend))
              (map pointPrice (current priceTrend)) ->
  Forall (fun point => (chartFiltered point <= allFlights point)%nat)
         (chartData priceTrend).
Proof.
  intros Hsub. destruct (current priceTrend) as [|point rest] eqn:Hcurrent.
  - rewrite chartData_empty by exact Hcurrent. constructor.
  - destruct (chartData_histogram priceTrend) as (lo & hi & _ & _ & ->);
      [congruence|].
    rewrite Hcurrent in *. apply chart_Forall. intros key.
    cbn [chartFiltered allFlights]. unfold bucketCount.
    apply subMultiset_filter; [apply inBucket_compat|exact Hsub].
Qed.

(** *** The sort puts the flights in order *)

Section SortOrders.
Context {A : Type} (cmp : A -> A -> Q).
Hypothesis cmp_total :
  forall a b, Qle_bool (cmp a b) 0 = false -> Qle_bool (cmp b a) 0 = true.

Let before (a b : A) : Prop := Qle_bool (cmp a b) 0 = true.

Lemma insert_HdRel (a x : A) (xs : list A) :
  before a x -> HdRel before a xs -> HdRel before a (insert cmp x xs).
Proof.
  intros Hax Hhead. destruct xs as [|y rest]; cbn [insert].
  - now constructor.
  - destruct (Qle_bool (cmp x y) 0); constructor; [exact Hax|].
    now inversion Hhead.
Qed.

Lemma insert_Sorted (x : A) (xs : list A) :
  Sorted before xs -> Sorted before (insert cmp x xs).
Proof.
  induction 1 as [|y rest Hsorted IH Hhead]; cbn [insert].
  - repeat constructor.
  - destruct (Qle_bool (cmp x y) 0) eqn:Hxy.
    + constructor; [now constructor|now constructor].
    + constructor; [exact IH|].
      apply insert_HdRel; [now apply cmp_total|exact Hhead].
Qed.

Lemma sort_Sorted (xs : list A) : Sorted before (sort cmp xs).
Proof.
  induction xs as [|x rest IH]; cbn [sort]; [constructor|].
  now apply insert_Sorted.
Qed.
End SortOrders.

Lemma comparator_total (sortField : SortField)
  (sortDirection : SortDirection) (a b : ProcessedFlight) :
  Qle_bool (comparator sortField sortDirection a b) 0 = false ->
  Qle_bool (comparator sortField sortDirection b a) 0 = true.
Proof.
  intros Hgt. apply Qle_bool_iff.
  assert (Hpos : ~ (comparator sortField sortDirection a b <= 0)%Q)
    by (rewrite <- Qle_bool_iff; congruence).
  apply Qnot_le_lt in Hpos. apply Qlt_le_weak.
  destruct sortDirection;
    rewrite ?comparator_desc, !comparator_asc in *; lra.
Qed.

(** Each flight of the sorted array is followed by one the comparator
    does not put before it. *)
Lemma sortFlights_Sorted (sortField : SortField)
  (sortDirection : SortDirection) (flights : list ProcessedFlight) :
  Sorted (fun a b => Qle_bool (comparator sortField sortDirection a b) 0 = true)
         (sortFlights sortField sortDirection flights).
Proof.
  apply sort_Sorted, comparator_total.
Qed.

(** *** Examples *)

(** Three flights priced 100, 250 and 400 with 0, 1 and 2 stops: the
    selection of "0" and "1" retains exactly the first two. *)
Example stops_scenario :
  @applyFilters sampleHost threeFlights directOrOneStop
  = [ sampleFlight "a" 100 0; sampleFlight "b" 250 1 ].
Proof. reflexivity. Qed.

Example parseDuration_examples :
  parseDuration "PT2H30M" = 150 /\ parseDuration "PT1H15M" = 75
  /\ parseDuration "PT45M" = 45 /\ parseDuration "P1D" = 0.
Proof. repeat split. Qed.

Example chart_scenario :
  map (fun point =>
         (chartPrice point, Z.of_nat (allFlights point),
          Z.of_nat (chartFiltered point)))
      (chartData (@usePriceTrend sampleHost threeFlights
                    (@applyFilters sampleHost threeFlights directOrOneStop)))
  = [ (100, 1, 1); (150, 0, 0); (200, 0, 0); (250, 1, 1); (300, 0, 0);
      (350, 0, 0); (400, 1, 0) ].
Proof. vm_compute. reflexivity. Qed.

Lemma applyFilters_retains_iff_witness :
  In (sampleFlight "b" 250 1)
     (@applyFilters sampleHost threeFlights directOrOneStop)
  <-> In (sampleFlight "b" 250 1) threeFlights
      /\ @satisfies sampleHost directOrOneStop (sampleFlight "b" 250 1).
Proof.
  apply (@applyFilters_retains_iff sampleHost threeFlights directOrOneStop
           (sampleFlight "b" 250 1)).
  cbn. lia.
Defined.

Lemma degenerate_aggregation_witness :
  (let trend := @usePriceTrend sampleHost [] [] in
   chartData trend = []
   /\ lowest trend = Fin 0%Q /\ highest trend = Fin 0%Q
   /\ average trend = Fin 0%Q)
  /\ (let trend := @usePriceTrend sampleHost threeFlights [] in
      lowest trend = Fin 0%Q /\ highest trend = Fin 0%Q
      /\ average trend = Fin 0%Q
      /\ chartData trend <> []
      /\ list_sum (map allFlights (chartData trend))
         = List.length threeFlights
      /\ Forall (fun point => chartFiltered point = O) (chartData trend)).
Proof.
  apply (@degenerate_aggregation sampleHost threeFlights). discriminate.
Defined.

Lemma filtered_within_all_witness :
  Forall (fun point => (chartFiltered point <= allFlights point)%nat)
         (chartData sampleTrend).
Proof.
  apply (filtered_within_all sampleTrend).
  intros q. unfold occurrences.
  change (map pointPrice (filtered sampleTrend)) with [100%Q; 250%Q].
  change (map pointPrice (current sampleTrend)) with [100%Q; 250%Q; 400%Q].
  cbn [List.filter].
  destruct (Qeq_bool q 100), (Qeq_bool q 250), (Qeq_bool q 400);
    cbn [List.length]; lia.
Defined.

(** * Further properties *)

(** ** Durations *)

Lemma digit_value (c : ascii) :
  isDigit c = true -> 0 <= Z.of_nat (nat_of_ascii c) - 48 <= 9.
Proof.
  unfold isDigit. cbv zeta. rewrite andb_true_iff.
  intros [Hlo Hhi]. apply Nat.leb_le in Hlo, Hhi. lia.
Qed.

Lemma parseInt_step (ds : list ascii) (acc : Z) :
  allDigits ds -> 0 <= acc ->
  0 <= fold_left (fun acc c => acc * 10 + (Z.of_nat (nat_of_ascii c) - 48))
         ds acc.
Proof.
  intros Hds. revert acc. induction Hds as [|c ds Hc _ IH]; intros acc Hacc.
  - exact Hacc.
  - cbn [fold_left]. apply IH. pose proof (digit_value c Hc). lia.
Qed.

Lemma digits_allDigits (s : string) : allDigits (fst (digits s)).
Proof.
  induction s as [|c rest IH]; cbn [digits]; [constructor|].
  destruct (isDigit c) eqn:Hc; [|constructor].
  destruct (digits rest) as [ds tl]. cbn [fst] in *. now constructor.
Qed.

Lemma group_nonneg (unit : ascii) (s : string) :
  match fst (group unit s) with Some n => 0 <= n | None => True end.
Proof.
  unfold group. pose proof (digits_allDigits s) as Hds.
  destruct (digits s) as [[|d ds] [|c rest]]; cbn [fst] in *; try exact I.
  destruct (Ascii.eqb c unit); cbn [fst]; [|exact I].
  now apply parseInt_step.
Qed.

(** No group of digits reads as a negative number, so neither does a
    duration. *)
Lemma parseDuration_ge_0 (duration : string) : 0 <= parseDuration duration.
Proof.
  unfold parseDuration. destruct (afterPT duration) as [s|]; [|lia].
  pose proof (group_nonneg "H" s) as Hh.
  destruct (group "H" s) as [h s']. cbn [fst] in Hh.
  pose proof (group_nonneg "M" s') as Hm.
  destruct (group "M" s') as [m s'']. cbn [fst] in Hm.
  destruct h, m; lia.
Qed.

(** X1: a parsed duration is never negative, whatever the text. *)
Theorem parseDuration_nonneg (duration : string) : 0 <= parseDuration duration.
Proof. apply parseDuration_ge_0. Qed.

Lemma append_empty (s : string) : ("" ++ s)%string = s.
Proof. reflexivity. Qed.

Lemma append_String (c : ascii) (s t : string) :
  (String c s ++ t)%string = String c (s ++ t).
Proof. reflexivity. Qed.

Lemma digits_ofChars (ds : list ascii) (rest : string) :
  allDigits ds ->
  match rest with String c _ => isDigit c = false | EmptyString => True end ->
  digits (ofChars ds ++ rest) = (ds, rest).
Proof.
  intros Hds Hrest.
  induction Hds as [|c ds Hc _ IH]; cbn [ofChars fold_right].
  - rewrite append_empty. destruct rest as [|c rest]; [reflexivity|].
    cbn [digits]. now rewrite Hrest.
  - rewrite append_String. cbn [digits]. fold (ofChars ds).
    now rewrite Hc, IH.
Qed.




(** ** Normalizing a batch *)

Lemma duration_sum (durations : list Itinerary) (start : Z) :
  fold_left (fun total itinerary =>
               total + parseDuration (itineraryDuration itinerary))
            durations start
  = start
    + fold_right Z.add 0
        (map (fun itinerary => parseDuration (itineraryDuration itinerary))
             durations).
Proof.
  revert start. induction durations as [|itinerary rest IH]; intros start.
  - cbn. lia.
  - cbn [fold_left map fold_right]. rewrite IH. lia.
Qed.

Lemma duration_sum_nonneg (durations : list Itinerary) :
  0 <= fold_right Z.add 0
         (map (fun itinerary => parseDuration (itineraryDuration itinerary))
              durations).
Proof.
  induction durations as [|itinerary rest IH]; cbn [map fold_right]; [lia|].
  pose proof (parseDuration_ge_0 (itineraryDuration itinerary)). lia.
Qed.

Section Batch.
Context `{Host}.

Lemma processFlightOffer_normalized (raw : FlightOffer) :
  ~ malformed raw ->
  exists flight,
    processFlightOffer raw = Ok flight /\ normalizedFrom raw flight.
Proof.
  unfold malformed, processFlightOffer, normalizedFrom.
  destruct (itineraries raw) as [|firstItinerary rest] eqn:Hits; [tauto|].
  intros Hsegments. cbn [nth_error deref bind].
  destruct (segments firstItinerary) as [|first others] eqn:Hsegs; [tauto|].
  cbn [nth_error deref bind List.length].
  destruct (Z.of_nat (S (List.length others)) - 1 <? 0) eqn:Hneg;
    [apply Z.ltb_lt in Hneg; lia|].
  destruct (nth_error (first :: others)
              (Z.to_nat (Z.of_nat (S (List.length others)) - 1)))
    as [last|] eqn:Hlast.
  - cbn [deref bind]. eexists. split; [reflexivity|].
    cbn [offer totalStops mainAirline totalDuration].
    split; [reflexivity|]. exists firstItinerary, first.
    rewrite Hsegs, duration_sum, Z.add_0_l. cbn [nth_error List.length].
    repeat split; try reflexivity; try lia.
    rewrite <- Hits.
    change 0%Q with (inject_Z 0). rewrite <- Zle_Qle.
    apply duration_sum_nonneg.
  - apply nth_error_None in Hlast. cbn [List.length] in Hlast. lia.
Qed.

(** X3: a batch in which every offer has a first itinerary with at least
    one segment is normalized as a whole: the processed flights correspond
    to the offers one for one and in order, each keeping its raw offer,
    with a stop count of its first itinerary's segments minus one (not
    negative), the carrier of its first segment as main airline, and the
    sum of the durations of all its itineraries (not negative) as total
    duration. *)
Theorem processedFlights_wellformed (response : FlightOffersResponse) :
  Forall (fun raw => ~ malformed raw) (data response) ->
  exists flights,
    processedFlights (Some response) = Ok flights
    /\ Forall2 normalizedFrom (data response) flights.
Proof.
  unfold processedFlights. generalize (data response) as batch.
  induction 1 as [|raw rest Hraw _ (flights & Hflights & Hall)].
  - exists []. split; [reflexivity|constructor].
  - destruct (processFlightOffer_normalized raw Hraw) as (flight & Hok & Hnorm).
    exists (flight :: flights). cbn [Array_map]. rewrite Hok, Hflights.
    split; [reflexivity|now constructor].
Qed.
End Batch.

Lemma processedFlights_wellformed_witness :
  exists flights,
    @processedFlights sampleHost (Some {| data := [goodOffer; goodOffer] |})
    = Ok flights
    /\ Forall2 normalizedFrom [goodOffer; goodOffer] flights.
Proof.
  apply (@processedFlights_wellformed sampleHost
           {| data := [goodOffer; goodOffer] |}).
  repeat constructor; cbn; discriminate.
Defined.

(** ** Airlines on offer *)

Lemma Set_add_In (set : list string) (x y : string) :
  In y (Set_add set x) <-> In y set \/ y = x.
Proof.
  unfold Set_add. destruct (includes set x) eqn:Hin.
  - apply includes_In in Hin. split; [tauto|]. intros [Hy| ->]; assumption.
  - rewrite in_app_iff. cbn. intuition.
Qed.

Lemma Set_add_NoDup (set : list string) (x : string) :
  List.NoDup set -> List.NoDup (Set_add set x).
Proof.
  intros Hset. unfold Set_add. destruct (includes set x) eqn:Hin; [exact Hset|].
  assert (Hfresh : ~ In x set)
    by (rewrite <- includes_In; congruence).
  apply List.NoDup_app; [exact Hset|repeat constructor; intros []|].
  intros y Hy [<-|[]]. contradiction.
Qed.

Lemma Set_fold (xs set : list string) :
  (List.NoDup set -> List.NoDup (fold_left Set_add xs set))
  /\ forall y, In y (fold_left Set_add xs set) <-> In y set \/ In y xs.
Proof.
  revert set. induction xs as [|x rest IH]; intros set; cbn [fold_left].
  - split; [tauto|]. intros y. cbn. tauto.
  - destruct (IH (Set_add set x)) as [Hdistinct Hin]. split.
    + intros Hset. now apply Hdistinct, Set_add_NoDup.
    + intros y. rewrite Hin, Set_add_In. cbn. intuition.
Qed.

Lemma codeUnitOrder_total (a b : string) :
  Qle_bool (codeUnitOrder a b) 0 = false ->
  Qle_bool (codeUnitOrder b a) 0 = true.
Proof.
  unfold codeUnitOrder. rewrite (String.compare_antisym a b).
  destruct (String.compare b a); cbn [CompOpp]; vm_compute; congruence.
Qed.

Lemma Sorted_strict {A} (R R' : A -> A -> Prop) (xs : list A) :
  (forall a b, R a b -> a <> b -> R' a b) ->
  Sorted R xs -> List.NoDup xs -> Sorted R' xs.
Proof.
  intros Hstrict. induction 1 as [|x rest Hsorted IH Hhead];
    intros Hdistinct; constructor.
  - apply IH. now inversion Hdistinct.
  - destruct Hhead as [|y rest' Hxy]; constructor.
    apply Hstrict; [exact Hxy|]. intros ->.
    inversion Hdistinct as [|? ? Hfresh _]. apply Hfresh. now left.
Qed.

(** X4: the airline options list every main airline of the flights, and
    nothing else, once each, in strictly ascending order of their codes. *)
Theorem getUniqueAirlines_sorted_distinct (flights : list ProcessedFlight) :
  (forall code,
      In code (getUniqueAirlines flights)
      <-> exists flight, In flight flights /\ mainAirline flight = code)
  /\ List.NoDup (getUniqueAirlines flights)
  /\ Sorted (fun a b => String.compare a b = Lt) (getUniqueAirlines flights).
Proof.
  unfold getUniqueAirlines. cbv zeta.
  set (codes := Set_from (map mainAirline flights)).
  assert (Hperm : Permutation (sort codeUnitOrder codes) codes)
    by apply sort_perm.
  destruct (Set_fold (map mainAirline flights) []) as [Hdistinct Hin].
  fold (Set_from (map mainAirline flights)) in Hdistinct, Hin.
  fold codes in Hdistinct, Hin.
  assert (Hnodup : List.NoDup (sort codeUnitOrder codes)).
  { eapply Permutation_NoDup; [symmetry; exact Hperm|].
    apply Hdistinct. constructor. }
  split; [|split; [exact Hnodup|]].
  - intros code. split.
    + intros Hcode. apply (Permutation_in _ Hperm) in Hcode.
      apply Hin in Hcode. destruct Hcode as [[]|Hcode].
      apply in_map_iff in Hcode. destruct Hcode as (flight & <- & Hflight).
      now exists flight.
    + intros (flight & Hflight & <-).
      apply (Permutation_in _ (Permutation_sym Hperm)).
      apply Hin. right. now apply in_map.
  - pose proof (sort_Sorted codeUnitOrder codeUnitOrder_total codes) as Hsorted.
    revert Hsorted Hnodup. apply Sorted_strict.
    intros a b Hle Hne. unfold codeUnitOrder in Hle.
    destruct (String.compare a b) eqn:Hcmp; [|reflexivity|discriminate].
    apply String.compare_eq_iff in Hcmp. contradiction.
Qed.

(** ** The best deal *)

Lemma cheaperOf_firstCheapest (best next : ProcessedFlight)
  (seen : list ProcessedFlight) :
  firstCheapest best seen ->
  firstCheapest (cheaperOf best next) (seen ++ [next]).
Proof.
  intros (before & after & -> & Hbefore & Hafter). unfold cheaperOf.
  destruct (Qltb (priceNumeric next) (priceNumeric best)) eqn:Hlt.
  - assert (Hless : (priceNumeric next < priceNumeric best)%Q).
    { apply Qnot_le_lt. intros Hle. apply Qltb_false in Hle. congruence. }
    exists (before ++ best :: after), []. split; [reflexivity|]. split.
    + intros flight Hin. apply in_app_iff in Hin.
      destruct Hin as [Hin|[<-|Hin]]; [|exact Hless|].
      * apply Qlt_trans with (priceNumeric best); auto.
      * apply Qlt_le_trans with (priceNumeric best); auto.
    + intros flight [].
  - apply Qltb_false in Hlt.
    exists before, (after ++ [next]). split.
    + now rewrite <- app_assoc.
    + split; [exact Hbefore|]. intros flight Hin. apply in_app_iff in Hin.
      destruct Hin as [Hin|[<-|[]]]; auto.
Qed.

Lemma reduce_firstCheapest (rest seen : list ProcessedFlight)
  (best : ProcessedFlight) :
  firstCheapest best seen ->
  firstCheapest (fold_left cheaperOf rest best) (seen ++ rest).
Proof.
  revert seen best. induction rest as [|next rest IH]; intros seen best Hbest.
  - now rewrite app_nil_r.
  - cbn [fold_left].
    replace (seen ++ next :: rest) with ((seen ++ [next]) ++ rest)
      by (now rewrite <- app_assoc).
    apply IH, cheaperOf_firstCheapest, Hbest.
Qed.

(** X5: the best-deal badge goes to the first flight of the list that no
    flight undercuts: every earlier flight is strictly dearer and no later
    flight is cheaper.  Without flights there is no best deal. *)
Theorem cheapestFlightId_first_cheapest (flights : list ProcessedFlight) :
  (flights = [] -> cheapestFlightId flights = None)
  /\ (flights <> [] ->
      exists best,
        cheapestFlightId flights = Some (id (offer best))
        /\ firstCheapest best flights
        /\ isBestDeal flights best = true).
Proof.
  split; [now intros ->|].
  destruct flights as [|first rest]; [congruence|]. intros _.
  exists (fold_left cheaperOf rest first).
  split; [reflexivity|]. split.
  - apply (reduce_firstCheapest rest [first] first).
    exists [], []. split; [reflexivity|]. split; intros flight [].
  - unfold isBestDeal. cbn [cheapestFlightId]. apply String.eqb_refl.
Qed.

Lemma cheapestFlightId_first_cheapest_witness :
  exists best,
    cheapestFlightId threeFlights = Some (id (offer best))
    /\ firstCheapest best threeFlights
    /\ isBestDeal threeFlights best = true.
Proof.
  apply (proj2 (cheapestFlightId_first_cheapest threeFlights)). discriminate.
Defined.

(** ** Statistics *)






Section Savings.
Context `{Host}.

End Savings.

(** ** Order of the sorted flights *)

Lemma Sorted_impl {A} (R R' : A -> A -> Prop) (xs : list A) :
  (forall a b, R a b -> R' a b) -> Sorted R xs -> Sorted R' xs.
Proof.
  intros Himpl. induction 1 as [|x rest _ IH Hhead]; constructor.
  - exact IH.
  - destruct Hhead; constructor. now apply Himpl.
Qed.

Lemma comparator_inOrder (sortField : SortField)
  (sortDirection : SortDirection) (a b : ProcessedFlight) :
  Qle_bool (comparator sortField sortDirection a b) 0 = true ->
  inOrder sortField sortDirection a b.
Proof.
  rewrite Qle_bool_iff. destruct sortDirection; unfold inOrder;
    rewrite ?comparator_desc, comparator_asc; lra.
Qed.

Lemma inOrder_trans (sortField : SortField) (sortDirection : SortDirection)
  (a b c : ProcessedFlight) :
  inOrder sortField sortDirection a b ->
  inOrder sortField sortDirection b c ->
  inOrder sortField sortDirection a c.
Proof.
  destruct sortDirection; unfold inOrder; intros Hab Hbc;
    eapply Qle_trans; eassumption.
Qed.

Lemma sortFlights_StronglySorted (sortField : SortField)
  (sortDirection : SortDirection) (flights : list ProcessedFlight) :
  StronglySorted (inOrder sortField sortDirection)
    (sortFlights sortField sortDirection flights).
Proof.
  apply Sorted_StronglySorted.
  - intros a b c. apply inOrder_trans.
  - eapply Sorted_impl; [|apply sortFlights_Sorted].
    intros a b. apply comparator_inOrder.
Qed.

(** X8: the sorted flights are the given flights in another order, and of
    any two of them the earlier one has the smaller or equal key when
    ascending, the greater or equal key when descending. *)
Theorem sortFlights_ordered (sortField : SortField)
  (sortDirection : SortDirection) (flights : list ProcessedFlight) :
  Permutation (sortFlights sortField sortDirection flights) flights
  /\ StronglySorted (inOrder sortField sortDirection)
       (sortFlights sortField sortDirection flights).
Proof. split; [apply sort_perm|apply sortFlights_StronglySorted]. Qed.

Lemma ForallOrdPairs_perm {A} (R : A -> A -> Prop) (xs ys : list A) :
  (forall a b, R a b -> R b a) ->
  Permutation xs ys -> ForallOrdPairs R xs -> ForallOrdPairs R ys.
Proof.
  intros Hsym. induction 1 as [|x xs ys Hperm IH|x y xs|xs ys zs _ IH1 _ IH2];
    intros Hpairs.
  - exact Hpairs.
  - inversion Hpairs as [|? ? Hhead Htail]; subst. constructor.
    + eapply Permutation_Forall; eassumption.
    + now apply IH.
  - inversion Hpairs as [|? ? Hy Htail]; subst.
    inversion Htail as [|? ? Hx Hrest]; subst.
    inversion Hy as [|? ? Hyx Hyrest]; subst.
    constructor; [constructor; [now apply Hsym|exact Hx]|].
    now constructor.
  - auto.
Qed.

Lemma StronglySorted_app {A} (R : A -> A -> Prop) (xs ys : list A) :
  StronglySorted R xs -> StronglySorted R ys ->
  (forall a b, In a xs -> In b ys -> R a b) ->
  StronglySorted R (xs ++ ys).
Proof.
  induction 1 as [|x xs _ IH Hhead]; intros Hys Hcross; [exact Hys|].
  cbn [app]. constructor.
  - apply IH; [exact Hys|]. intros a b Ha Hb. apply Hcross; [now right|exact Hb].
  - apply Forall_app. split; [exact Hhead|].
    apply List.Forall_forall. intros b Hb. apply Hcross; [now left|exact Hb].
Qed.

Lemma StronglySorted_rev {A} (R : A -> A -> Prop) (xs : list A) :
  StronglySorted R xs -> StronglySorted (fun a b => R b a) (rev xs).
Proof.
  induction 1 as [|x xs _ IH Hhead]; [constructor|].
  cbn [rev]. apply StronglySorted_app; [exact IH|repeat constructor|].
  intros a b Ha [<-|[]]. rewrite List.Forall_forall in Hhead.
  apply Hhead. now apply in_rev.
Qed.

(** Two arrangements of the same elements that are both in order
    coincide, when the order cannot hold both ways between two elements
    of the list. *)
Lemma sorted_unique {A} (R D : A -> A -> Prop) (xs ys : list A) :
  (forall a b, R a b -> R b a -> D a b -> False) ->
  StronglySorted R xs -> StronglySorted R ys ->
  ForallOrdPairs D ys ->
  Permutation xs ys -> xs = ys.
Proof.
  intros Hanti Hxs. revert ys.
  induction Hxs as [|x xs Hsorted IH Hhead]; intros ys Hys Hpairs Hperm.
  - apply Permutation_nil in Hperm. now subst.
  - destruct ys as [|y ys];
      [apply Permutation_sym, Permutation_nil in Hperm; discriminate|].
    inversion Hys as [|? ? Hys' Hy]; subst.
    inversion Hpairs as [|? ? Hdistinct Hpairs']; subst.
    rewrite List.Forall_forall in Hhead, Hy, Hdistinct.
    assert (Heq : x = y).
    { assert (Hx : In x (y :: ys))
        by (apply (Permutation_in _ Hperm); now left).
      assert (Hy' : In y (x :: xs))
        by (apply (Permutation_in _ (Permutation_sym Hperm)); now left).
      destruct Hx as [->|Hx]; [reflexivity|].
      destruct Hy' as [->|Hy']; [reflexivity|].
      exfalso. apply (Hanti y x); auto. }
    subst y. f_equal. apply IH; try assumption.
    now apply Permutation_cons_inv in Hperm.
Qed.

(** Two orders of the same flights without ties are mirror images. *)
Lemma sortFlights_desc_rev (sortField : SortField)
  (flights : list ProcessedFlight) :
  distinctKeys sortField flights ->
  sortFlights sortField Desc flights
  = rev (sortFlights sortField Asc flights).
Proof.
  intros Hdistinct.
  pose proof (sort_perm (comparator sortField Desc) flights) as Hperm.
  pose proof (sort_perm (comparator sortField Asc) flights) as Hperm'.
  pose proof (sortFlights_StronglySorted sortField Desc flights) as Hdesc.
  pose proof (sortFlights_StronglySorted sortField Asc flights) as Hasc.
  fold (sortFlights sortField Desc flights) in Hperm.
  fold (sortFlights sortField Asc flights) in Hperm'.
  apply (sorted_unique (inOrder sortField Desc)
           (fun a b => ~ (sortKey sortField a == sortKey sortField b)%Q)).
  - unfold inOrder. intros a b Hab Hba Hne. apply Hne.
    now apply Qle_antisym.
  - exact Hdesc.
  - apply StronglySorted_rev in Hasc. exact Hasc.
  - eapply ForallOrdPairs_perm; [| |exact Hdistinct].
    + intros a b Hne Heq. apply Hne. now symmetry.
    + rewrite <- Permutation_rev. now symmetry.
  - rewrite Hperm, <- Permutation_rev. now symmetry.
Qed.

(** X9: when no two flights share a sort key, the descending order is
    exactly the reverse of the ascending order. *)
Theorem distinct_keys_desc_reverses (sortField : SortField)
  (flights : list ProcessedFlight) :
  distinctKeys sortField flights ->
  sortFlights sortField Desc flights
  = rev (sortFlights sortField Asc flights).
Proof. apply sortFlights_desc_rev. Qed.

Lemma distinct_keys_desc_reverses_witness :
  sortFlights SortPrice Desc distinctFlights
  = rev (sortFlights SortPrice Asc distinctFlights).
Proof.
  apply (distinct_keys_desc_reverses SortPrice distinctFlights).
  repeat constructor; cbn; discriminate.
Defined.

Section Toggle.
Context `{Host}.

End Toggle.


(** ** More on the filter *)

Section Filters.
Context `{Host}.

Lemma keepFlight_true (filters : FilterState) (flight : ProcessedFlight) :
  keepFlight filters flight = true
  <-> withinRange (priceNumeric flight) (priceRange filters)
      /\ (stops filters = [] \/ In (stopCategory flight) (stops filters))
      /\ (airlines filters = [] \/ In (mainAirline flight) (airlines filters))
      /\ withinRange (inject_Z (getHours (departureTime flight)))
                     (departureTimeRange filters)
      /\ withinRange (inject_Z (getHours (arrivalTime flight)))
                     (arrivalTimeRange filters)
      /\ withinRange (totalDuration flight) (duration filters).
Proof.
  unfold keepFlight. rewrite <- !outside_false, <- !selection_false.
  repeat match goal with
         | |- context [if ?b then false else _] => destruct b
         end; intuition congruence.
Qed.

Lemma withinRange_wider (x : Q) (inner outer : Q * Q) :
  rangeWithin inner outer -> withinRange x inner -> withinRange x outer.
Proof.
  unfold rangeWithin, withinRange. intros [Hlo Hhi] [Hlo' Hhi']. split; lra.
Qed.

Lemma selection_wider (x : string) (inner outer : list string) :
  selectionWithin inner outer ->
  inner = [] \/ In x inner -> outer = [] \/ In x outer.
Proof.
  intros [Hall|[Hsome Hincl]] Hx; [now left|].
  destruct Hx as [Hx|Hx]; [contradiction|]. right. now apply Hincl.
Qed.

Lemma filter_length_le {A} (p q : A -> bool) (xs : list A) :
  (forall x, In x xs -> p x = true -> q x = true) ->
  (List.length (List.filter p xs) <= List.length (List.filter q xs))%nat.
Proof.
  induction xs as [|x rest IH]; intros Himpl; [reflexivity|].
  cbn [List.filter]. specialize (IH (fun y Hy => Himpl y (or_intror Hy))).
  pose proof (Himpl x (or_introl eq_refl)) as Hx.
  destruct (p x), (q x); cbn [List.length]; try lia.
Qed.

(** X11: a filter that asks for more never shows more: whatever the narrower
    filter retains the wider one retains too, so the count of results does
    not grow. *)
Theorem applyFilters_monotone (flights : list ProcessedFlight)
  (narrow wide : FilterState) :
  narrower narrow wide ->
  incl (applyFilters flights narrow) (applyFilters flights wide)
  /\ (List.length (applyFilters flights narrow)
      <= List.length (applyFilters flights wide))%nat.
Proof.
  intros (Hprice & Hstops & Hairlines & Hdep & Harr & Hdur).
  assert (Hkeep : forall flight,
             keepFlight narrow flight = true -> keepFlight wide flight = true).
  { intros flight. rewrite !keepFlight_true.
    intros (H1 & H2 & H3 & H4 & H5 & H6).
    split; [eapply withinRange_wider; eassumption|].
    split; [eapply selection_wider; eassumption|].
    split; [eapply selection_wider; eassumption|].
    split; [eapply withinRange_wider; eassumption|].
    split; eapply withinRange_wider; eassumption. }
  unfold applyFilters. split.
  - intros flight. rewrite !filter_In. intros [Hin Hnarrow]. auto.
  - apply filter_length_le. auto.
Qed.

Lemma getHours_range (date : Date) : 0 <= getHours date <= 23.
Proof.
  unfold getHours. pose proof (Z.mod_pos_bound
    ((date + tzOffset date) / msPerHour) 24). lia.
Qed.

Lemma defaultRange_contains (fallback : Q * Q) (observed : list Q)
  (range : Q * Q) (x : Q) :
  defaultRange fallback observed range -> In x observed ->
  withinRange x range.
Proof.
  unfold defaultRange, withinRange.
  destruct observed as [|y rest]; [intros _ []|].
  intros (lo & hi & [_ Hlo] & [_ Hhi] & -> & ->) Hin. split.
  - eapply Qle_trans; [apply Qfloor_le|]. now apply Hlo.
  - eapply Qle_trans; [|apply Qle_ceiling]. now apply Hhi.
Qed.

Lemma filter_all {A} (p : A -> bool) (xs : list A) :
  (forall x, In x xs -> p x = true) -> List.filter p xs = xs.
Proof.
  induction xs as [|x rest IH]; intros Hall; [reflexivity|].
  cbn [List.filter]. rewrite (Hall x (or_introl eq_refl)).
  f_equal. apply IH. intros y Hy. apply Hall. now right.
Qed.

(** Filters at their defaults retain every flight. *)
Lemma applyFilters_inactive (flights : list ProcessedFlight)
  (filters : FilterState) :
  hasActiveFilters flights filters = false ->
  applyFilters flights filters = flights.
Proof.
  rewrite hasActiveFilters_false. unfold atDefaults.
  intros (Hstops & Hairlines & Hd0 & Hd23 & Ha0 & Ha23 & Hprice & Hduration).
  apply filter_all. intros flight Hin. apply keepFlight_true.
  split; [|split; [now left|split; [now left|]]].
  - eapply defaultRange_contains; [exact Hprice|now apply in_map].
  - pose proof (getHours_range (departureTime flight)) as [Hlo Hhi].
    pose proof (getHours_range (arrivalTime flight)) as [Hlo' Hhi'].
    rewrite Zle_Qle in Hlo, Hhi, Hlo', Hhi'.
    change (inject_Z 0) with 0%Q in *. change (inject_Z 23) with 23%Q in *.
    unfold withinRange. rewrite Hd0, Hd23, Ha0, Ha23.
    repeat split; try assumption.
    + eapply defaultRange_contains; [exact Hduration|now apply in_map].
    + eapply defaultRange_contains; [exact Hduration|now apply in_map].
Qed.

(** X12: when no filter is reported active, none is at work: every flight
    is retained, in its place. *)
Theorem inactive_filters_retain_all (flights : list ProcessedFlight)
  (filters : FilterState) :
  hasActiveFilters flights filters = false ->
  applyFilters flights filters = flights.
Proof. apply applyFilters_inactive. Qed.

End Filters.

Lemma applyFilters_monotone_witness :
  incl (@applyFilters sampleHost twentyThreeFlights narrowFilters)
       (@applyFilters sampleHost twentyThreeFlights wideFilters)
  /\ (List.length (@applyFilters sampleHost twentyThreeFlights narrowFilters)
      <= List.length (@applyFilters sampleHost twentyThreeFlights wideFilters))%nat.
Proof.
  apply (@applyFilters_monotone sampleHost twentyThreeFlights narrowFilters
           wideFilters).
  unfold narrower, rangeWithin, selectionWithin. cbn.
  repeat split; try (left; reflexivity); try discriminate.
Defined.

Lemma inactive_filters_retain_all_witness :
  @applyFilters sampleHost [halfPricedFlight]
    {| priceRange := (100, 101)%Q; stops := []; airlines := [];
       departureTimeRange := (0, 23)%Q; arrivalTimeRange := (0, 23)%Q;
       duration := (390, 390)%Q |}
  = [halfPricedFlight].
Proof.
  apply (@inactive_filters_retain_all sampleHost [halfPricedFlight]).
  reflexivity.
Defined.

(** A flight priced 1200 is not listed after loading. *)
Example dear_flight_hidden :
  @sortedView sampleHost (step initialState (FlightsLoaded [dearFlight])) = [].
Proof. reflexivity. Qed.

(** ** More on pagination *)

Lemma firstn_plus {A} (a b : nat) (xs : list A) :
  firstn (a + b) xs = firstn a xs ++ firstn b (skipn a xs).
Proof.
  revert xs. induction a as [|a IH]; intros xs; [reflexivity|].
  destruct xs as [|x rest]; cbn [Nat.add firstn skipn app].
  - now rewrite firstn_nil.
  - now rewrite IH.
Qed.

Lemma windows_concat {A} (size count : nat) (xs : list A) :
  concat (map (fun i => firstn size (skipn (i * size) xs)) (seq 0 count))
  = firstn (count * size) xs.
Proof.
  induction count as [|count IH]; [reflexivity|].
  rewrite seq_S, map_app, concat_app, IH. cbn [map concat Nat.add].
  rewrite app_nil_r.
  change (S count * size)%nat with (size + count * size)%nat.
  now rewrite (Nat.add_comm size), firstn_plus.
Qed.

(** X14: the pages 1 to [totalFilteredPages], put one after the other,
    are the filtered and sorted flights: every flight is on exactly one
    page, in order. *)
Theorem pages_cover_all (sortedFlights : list ProcessedFlight) :
  concat (allPages sortedFlights) = sortedFlights.
Proof.
  unfold allPages.
  set (pages := Z.to_nat (totalFilteredPages sortedFlights)).
  rewrite <- seq_shift, map_map.
  rewrite (map_ext _ (fun i => firstn 10
                                 (skipn (i * 10) sortedFlights))).
  - rewrite windows_concat. apply firstn_all2.
    unfold pages. rewrite totalFilteredPages_div.
    set (count := List.length sortedFlights).
    assert (Z.of_nat count <= (Z.of_nat count + 9) / 10 * 10)
      by (Z.to_euclidean_division_equations; lia).
    lia.
  - intros i. rewrite paginatedSortedFlights_window by lia.
    unfold pageSize. do 2 f_equal. lia.
Qed.

(** X15: a page holds at most ten flights; the "next" control is enabled
    exactly when the following page has a flight to show; and a page is
    empty exactly when its index is beyond the page count. *)
Theorem next_page_has_flights (sortedFlights : list ProcessedFlight)
  (page : Z) :
  1 <= page ->
  (List.length (paginatedSortedFlights sortedFlights page) <= 10)%nat
  /\ (hasNextPage sortedFlights page = true
      <-> paginatedSortedFlights sortedFlights (page + 1) <> [])
  /\ (paginatedSortedFlights sortedFlights page = []
      <-> totalFilteredPages sortedFlights < page).
Proof.
  intros Hpage.
  assert (Hempty : forall p, 1 <= p ->
             paginatedSortedFlights sortedFlights p = []
             <-> totalFilteredPages sortedFlights < p).
  { intros p Hp. rewrite paginatedSortedFlights_window by exact Hp.
    rewrite totalFilteredPages_div. unfold pageSize.
    set (count := List.length sortedFlights).
    set (window := firstn (Z.to_nat 10)
                     (skipn (Z.to_nat ((p - 1) * 10)) sortedFlights)).
    assert (Hlen : List.length window
                   = Nat.min 10 (count - Z.to_nat ((p - 1) * 10))).
    { unfold window. rewrite length_firstn, length_skipn. reflexivity. }
    split.
    - intros Hnil. rewrite Hnil in Hlen. cbn [List.length] in Hlen.
      Z.to_euclidean_division_equations. lia.
    - intros Hbeyond. destruct window; [reflexivity|].
      cbn [List.length] in Hlen.
      Z.to_euclidean_division_equations. lia. }
  split; [|split; [|now apply Hempty]].
  - rewrite paginatedSortedFlights_window by exact Hpage.
    rewrite length_firstn. unfold pageSize. lia.
  - unfold hasNextPage. rewrite Z.ltb_lt, (Hempty (page + 1)) by lia. lia.
Qed.

Lemma next_page_has_flights_witness :
  (List.length (paginatedSortedFlights twentyThreeFlights 2) <= 10)%nat
  /\ (hasNextPage twentyThreeFlights 2 = true
      <-> paginatedSortedFlights twentyThreeFlights (2 + 1) <> [])
  /\ (paginatedSortedFlights twentyThreeFlights 2 = []
      <-> totalFilteredPages twentyThreeFlights < 2).
Proof.
  apply (next_page_has_flights twentyThreeFlights 2). lia.
Defined.

(** ** The hour sliders *)



(** ** More on the chart *)

Lemma Qfloor_unique (x : Q) (z : Z) :
  (inject_Z z <= x)%Q -> (x < inject_Z (z + 1))%Q -> Qfloor x = z.
Proof.
  intros Hlow Hhigh. apply Z.le_antisymm.
  - assert (Hlt : Qfloor x < z + 1); [|lia].
    rewrite Zlt_Qlt. eapply Qle_lt_trans; [apply Qfloor_le|exact Hhigh].
  - rewrite <- (Qfloor_Z z). now apply Qfloor_resp_le.
Qed.

Lemma inBucket_inInterval (key : Z) (price : Q) :
  (bucketSize | key) -> inBucket key price = inInterval key price.
Proof.
  intros [z ->]. unfold inBucket, inInterval, bucketOf, bucketSize, Qltb.
  assert (Hscale : forall n : Z,
             (inject_Z (n * 50) == inject_Z n * 50)%Q)
    by (intros n; rewrite inject_Z_mult; reflexivity).
  destruct (Qle_bool (inject_Z (z * 50)) price) eqn:Hlow; cbn [andb].
  - apply Qle_bool_iff in Hlow. rewrite Hscale in Hlow.
    destruct (Qle_bool (inject_Z (z * 50 + 50)) price) eqn:Hhigh; cbn [negb].
    + apply Qle_bool_iff in Hhigh.
      replace (z * 50 + 50) with ((z + 1) * 50) in Hhigh by lia.
      rewrite Hscale in Hhigh. apply Z.eqb_neq. intros Heq.
      assert (Hfloor : Qfloor (price / inject_Z 50) = z) by lia.
      pose proof (Qlt_floor (price / inject_Z 50)) as Hlt.
      rewrite Hfloor in Hlt.
      assert (Hdiv : (inject_Z (z + 1) <= price / inject_Z 50)%Q).
      { apply Qle_shift_div_l; [reflexivity|exact Hhigh]. }
      apply (Qlt_irrefl (inject_Z (z + 1))).
      eapply Qle_lt_trans; eassumption.
    + apply Z.eqb_eq. f_equal. apply Qfloor_unique.
      * apply Qle_shift_div_l; [reflexivity|exact Hlow].
      * apply Qlt_shift_div_r; [reflexivity|].
        apply Qnot_le_lt. intros Hle.
        replace (z * 50 + 50) with ((z + 1) * 50) in Hhigh by lia.
        assert (Qle_bool (inject_Z ((z + 1) * 50)) price = true); [|congruence].
        apply Qle_bool_iff. now rewrite Hscale.
  - apply Z.eqb_neq. intros Heq.
    assert (Hfloor : Qfloor (price / inject_Z 50) = z) by lia.
    pose proof (Qfloor_le (price / inject_Z 50)) as Hle.
    rewrite Hfloor in Hle.
    assert (Qle_bool (inject_Z (z * 50)) price = true); [|congruence].
    apply Qle_bool_iff. rewrite Hscale.
    apply (Qmult_le_r _ _ (/ inject_Z 50)); [reflexivity|].
    rewrite <- Qmult_assoc, Qmult_inv_r, Qmult_1_r by discriminate.
    exact Hle.
Qed.

Lemma bucketKeys_multiples (lo hi : Q) (key : Z) :
  In key (bucketKeys lo hi) -> (bucketSize | key).
Proof.
  unfold bucketKeys. cbv zeta. rewrite keysFrom_In.
  intros (j & _ & ->). exists (Qfloor (lo / inject_Z bucketSize) + j).
  unfold bucketSize. lia.
Qed.

Lemma chart_Forall_keys (Q' : ChartPoint -> Prop) (keys : list Z)
  (allPrices filteredPrices : list Q) :
  (forall key,
      In key keys ->
      Q' {| chartPrice := key;
            allFlights := bucketCount key allPrices;
            chartFiltered := bucketCount key filteredPrices |}) ->
  Forall Q'
    (map toChartPoint
       (Object_entries (histogram keys allPrices filteredPrices))).
Proof.
  intros Hall. apply List.Forall_forall. intros point Hin.
  apply in_map_iff in Hin. destruct Hin as (entry & <- & Hin).
  apply (Permutation_in _ (Object_entries_perm _)) in Hin.
  unfold histogram in Hin. apply in_map_iff in Hin.
  destruct Hin as (key & <- & Hkey). now apply Hall.
Qed.

(** X17: every point of the chart stands for fifty currency units from a
    multiple of fifty, and counts the all-flights prices and the filtered
    prices that lie in that interval, its start included and its end
    excluded. *)
Theorem chart_point_counts_interval (priceTrend : PriceTrend) :
  Forall (fun point =>
            (bucketSize | chartPrice point)
            /\ allFlights point
               = List.length
                   (List.filter (inInterval (chartPrice point))
                      (map pointPrice (current priceTrend)))
            /\ chartFiltered point
               = List.length
                   (List.filter (inInterval (chartPrice point))
                      (map pointPrice (filtered priceTrend))))
         (chartData priceTrend).
Proof.
  destruct (current priceTrend) as [|point rest] eqn:Hcurrent.
  - rewrite chartData_empty by exact Hcurrent. constructor.
  - destruct (chartData_histogram priceTrend) as (lo & hi & _ & _ & ->);
      [congruence|].
    rewrite Hcurrent. apply chart_Forall_keys. intros key Hkey.
    apply bucketKeys_multiples in Hkey.
    cbn [chartPrice allFlights chartFiltered]. unfold bucketCount.
    split; [exact Hkey|].
    split; f_equal; apply filter_ext; intros price;
      now apply inBucket_inInterval.
Qed.

Lemma filter_none {A} (p : A -> bool) (xs : list A) :
  (forall x, In x xs -> p x = false) -> List.filter p xs = [].
Proof.
  induction xs as [|x rest IH]; intros Hnone; [reflexivity|].
  cbn [List.filter]. rewrite (Hnone x (or_introl eq_refl)).
  apply IH. intros y Hy. apply Hnone. now right.
Qed.

Lemma sort_sorted {A} (cmp : A -> A -> Q) (xs : list A) :
  Sorted (fun a b => Qle_bool (cmp a b) 0 = true) xs -> sort cmp xs = xs.
Proof.
  induction 1 as [|x rest _ IH Hhead]; [reflexivity|].
  cbn [sort]. rewrite IH. destruct Hhead as [|y rest' Hxy]; [reflexivity|].
  cbn [insert]. now rewrite Hxy.
Qed.

Lemma keysFrom_Sorted {V} (count : nat) (i : Z) (f : Z -> V) :
  Sorted (fun a b : Z * V =>
            Qle_bool (inject_Z (fst a - fst b)) 0 = true)
         (map (fun key => (key, f key)) (keysFrom count i)).
Proof.
  revert i. induction count as [|count IH]; intros i; cbn [keysFrom map];
    constructor; [apply IH|].
  destruct count as [|count]; cbn [keysFrom map]; constructor.
  cbn [fst]. apply Qle_bool_iff. change 0%Q with (inject_Z 0).
  rewrite <- Zle_Qle. unfold bucketSize. lia.
Qed.

(** X18: when the all-flights prices lie between 0 and four thousand
    million, the points of the chart come in ascending order of price,
    fifty apart and without a gap, from the bucket of the least price to
    the first multiple of fifty at or above the greatest price. *)
Theorem chart_points_ascending (priceTrend : PriceTrend) :
  current priceTrend <> [] ->
  Forall (fun price => (0 <= price)%Q /\ (price <= greatestCharted)%Q)
         (map pointPrice (current priceTrend)) ->
  exists lo hi,
    isMinimum lo (map pointPrice (current priceTrend))
    /\ isMaximum hi (map pointPrice (current priceTrend))
    /\ map chartPrice (chartData priceTrend)
       = keysFrom (List.length (chartData priceTrend))
           (Qfloor (lo / inject_Z bucketSize) * bucketSize)
    /\ Qfloor (lo / inject_Z bucketSize) * bucketSize
       + bucketSize * (Z.of_nat (List.length (chartData priceTrend)) - 1)
       = Qceiling (hi / inject_Z bucketSize) * bucketSize.
Proof.
  intros Hcurrent Hrange. rewrite List.Forall_forall in Hrange.
  destruct (chartData_histogram priceTrend Hcurrent)
    as (lo & hi & Hlo & Hhi & ->).
  exists lo, hi. split; [exact Hlo|]. split; [exact Hhi|].
  set (allPrices := map pointPrice (current priceTrend)) in *.
  set (filteredPrices := map pointPrice (filtered priceTrend)).
  destruct (Hrange lo (proj1 Hlo)) as [Hlo0 Hlo1].
  destruct (Hrange hi (proj1 Hhi)) as [Hhi0 Hhi1].
  assert (Hlohi : (lo <= hi)%Q) by (apply Hlo, Hhi).
  unfold bucketKeys. cbv zeta.
  set (min := Qfloor (lo / inject_Z bucketSize) * bucketSize).
  set (max := Qceiling (hi / inject_Z bucketSize) * bucketSize).
  assert (Hmin : 0 <= min).
  { unfold min, bucketSize. apply Z.mul_nonneg_nonneg; [|lia].
    apply (Qfloor_resp_le 0). apply Qle_shift_div_l; [reflexivity|]. lra. }
  assert (Hminmax : min <= max).
  { unfold min, max, bucketSize. apply Z.mul_le_mono_nonneg_r; [lia|].
    apply Z.le_trans with (Qfloor (hi / inject_Z 50)).
    - apply Qfloor_resp_le, Qdiv_le_compat, Hlohi.
    - rewrite Zle_Qle. apply Qle_floor_ceiling. }
  assert (Hmax : max <= 4000000000).
  { unfold max, bucketSize.
    assert (Qceiling (hi / inject_Z 50) <= 80000000); [|lia].
    apply (Qceiling_resp_le _ 80000000).
    apply Qle_shift_div_r; [reflexivity|]. unfold greatestCharted in Hhi1.
    change (inject_Z 50) with 50%Q. lra. }
  assert (Hsteps : iterations min max = S (Z.to_nat ((max - min) / 50))).
  { unfold iterations, bucketSize.
    assert (0 <= (max - min) / 50)
      by (Z.to_euclidean_division_equations; lia). lia. }
  set (keys := keysFrom (iterations min max) min).
  assert (Hindex : forall key, In key keys -> isArrayIndex key = true).
  { intros key Hkey. unfold keys in Hkey. apply keysFrom_In in Hkey.
    destruct Hkey as (j & Hj & ->). unfold isArrayIndex, bucketSize.
    rewrite Hsteps in Hj.
    assert ((max - min) / 50 * 50 <= max - min)
      by (Z.to_euclidean_division_equations; lia).
    apply andb_true_iff. split; [apply Z.leb_le|apply Z.ltb_lt]; lia. }
  assert (Hentries : Object_entries (histogram keys allPrices filteredPrices)
                     = histogram keys allPrices filteredPrices).
  { unfold Object_entries.
    rewrite filter_all.
    - rewrite filter_none, app_nil_r.
      + apply sort_sorted. unfold histogram, keys. apply keysFrom_Sorted.
      + intros entry Hin. unfold histogram in Hin. apply in_map_iff in Hin.
        destruct Hin as (key & <- & Hkey). cbn [fst].
        now rewrite (Hindex key Hkey).
    - intros entry Hin. unfold histogram in Hin. apply in_map_iff in Hin.
      destruct Hin as (key & <- & Hkey). cbn [fst]. now apply Hindex. }
  rewrite Hentries. unfold histogram. rewrite !map_map. cbn [toChartPoint fst].
  rewrite map_id, length_map.
  assert (Hcount : List.length keys = iterations min max).
  { unfold keys. generalize (iterations min max) as n. intros n.
    generalize min as i. induction n as [|n IH]; intros i; cbn; congruence. }
  rewrite Hcount. split; [reflexivity|]. rewrite Hsteps.
  fold min max. unfold bucketSize.
  assert (Hdiv : (50 | max - min)).
  { unfold max, min, bucketSize.
    exists (Qceiling (hi / inject_Z 50) - Qfloor (lo / inject_Z 50)). lia. }
  destruct Hdiv as [q Hq]. rewrite Hq, Z.div_mul by lia. lia.
Qed.

Lemma chart_points_ascending_witness :
  exists lo hi,
    isMinimum lo (map pointPrice (current sampleTrend))
    /\ isMaximum hi (map pointPrice (current sampleTrend))
    /\ map chartPrice (chartData sampleTrend)
       = keysFrom (List.length (chartData sampleTrend))
           (Qfloor (lo / inject_Z bucketSize) * bucketSize)
    /\ Qfloor (lo / inject_Z bucketSize) * bucketSize
       + bucketSize * (Z.of_nat (List.length (chartData sampleTrend)) - 1)
       = Qceiling (hi / inject_Z bucketSize) * bucketSize.
Proof.
  apply (chart_points_ascending sampleTrend).
  - discriminate.
  - repeat constructor; cbn; discriminate.
Defined.

(** With a negative price the bucket below zero is listed last. *)
Example negative_bucket_last :
  map chartPrice
      (chartData
         {| current :=
              [ {| pointPrice := (-30)%Q; pointDate := "2024-03-15";
                   pointAirline := "BA"; pointStops := 0 |};
                {| pointPrice := 70%Q; pointDate := "2024-03-15";
                   pointAirline := "BA"; pointStops := 0 |} ];
            filtered := [];
            lowest := Fin 0%Q; highest := Fin 0%Q; average := Fin 0%Q |})
  = [0; 50; 100; -50].
Proof. vm_compute. reflexivity. Qed.

(** ** Layovers *)

Section Layovers.
Context `{Host}.

Lemma layoversOf_length (segs : list Segment) :
  List.length (layoversOf segs) = (List.length segs - 1)%nat.
Proof.
  induction segs as [|currentSegment rest IH]; [reflexivity|].
  cbn [layoversOf]. destruct rest as [|nextSegment rest']; [reflexivity|].
  cbn [List.length] in *. rewrite IH. lia.
Qed.

Lemma layoversOf_airports (segs : list Segment) :
  map layoverAirport (layoversOf segs)
  = map (fun segment => iataCode (arrival segment)) (removelast segs).
Proof.
  induction segs as [|currentSegment rest IH]; [reflexivity|].
  cbn [layoversOf removelast].
  destruct rest as [|nextSegment rest']; [reflexivity|].
  cbn [map layoverAirport]. now rewrite IH.
Qed.

(** X19: for a flight normalized from an offer, the card lists no layover
    exactly when the flight is non-stop; otherwise it lists as many
    layovers as the flight has stops, at the arrival airports of all the
    segments but the last, in order. *)
Theorem layovers_match_stops (raw : FlightOffer) (flight : ProcessedFlight) :
  normalizedFrom raw flight ->
  exists itinerary,
    nth_error (itineraries (offer flight)) 0 = Some itinerary
    /\ (getLayoverInfo flight itinerary = None <-> totalStops flight = 0)
    /\ forall layovers,
         getLayoverInfo flight itinerary = Some layovers ->
         Z.of_nat (List.length layovers) = totalStops flight
         /\ map layoverAirport layovers
            = map (fun segment => iataCode (arrival segment))
                  (removelast (segments itinerary)).
Proof.
  intros (Hoffer & itinerary & firstSegment & Hfirst & _ & Hstops & Hpos & _).
  exists itinerary. rewrite Hoffer. split; [exact Hfirst|].
  unfold getLayoverInfo. destruct (totalStops flight =? 0) eqn:Hzero.
  - apply Z.eqb_eq in Hzero. split; [tauto|]. discriminate.
  - apply Z.eqb_neq in Hzero. split; [split; [discriminate|contradiction]|].
    intros layovers [= <-]. rewrite layoversOf_length, layoversOf_airports.
    split; [lia|reflexivity].
Qed.
End Layovers.

Lemma layovers_match_stops_witness :
  exists itinerary,
    nth_error (itineraries (offer (sampleFlight "b" 250 1))) 0
    = Some itinerary
    /\ (@getLayoverInfo sampleHost (sampleFlight "b" 250 1) itinerary = None
        <-> totalStops (sampleFlight "b" 250 1) = 0)
    /\ forall layovers,
         @getLayoverInfo sampleHost (sampleFlight "b" 250 1) itinerary
         = Some layovers ->
         Z.of_nat (List.length layovers) = totalStops (sampleFlight "b" 250 1)
         /\ map layoverAirport layovers
            = map (fun segment => iataCode (arrival segment))
                  (removelast (segments itinerary)).
Proof.
  apply (@layovers_match_stops sampleHost
           (sampleOffer "b" EmptyString 2) (sampleFlight "b" 250 1)).
  split; [reflexivity|].
  eexists _, _. repeat split; try reflexivity; cbn; try lia; discriminate.
Defined.

(** ** Shareable links *)

Lemma digitChar_digit (d : N) :
  (d < 10)%N ->
  isDigit (Link.digitChar d) = true
  /\ Z.of_nat (nat_of_ascii (Link.digitChar d)) - 48 = Z.of_N d.
Proof.
  intros Hd.
  assert (Hcases : In d [0; 1; 2; 3; 4; 5; 6; 7; 8; 9]%N).
  { cbn. lia. }
  cbn in Hcases.
  repeat (destruct Hcases as [<-|Hcases]; [split; reflexivity|]).
  contradiction.
Qed.

Lemma parseInt_app (ds es : list ascii) :
  parseInt (ds ++ es)
  = fold_left (fun acc c => acc * 10 + (Z.of_nat (nat_of_ascii c) - 48))
      es (parseInt ds).
Proof. unfold parseInt. apply fold_left_app. Qed.

Lemma decimalDigits_value (fuel : nat) (n : N) (acc : list ascii) :
  (n < 10 ^ N.of_nat (S fuel))%N ->
  exists ds,
    Link.decimalDigits (S fuel) n acc = ds ++ acc
    /\ allDigits ds /\ ds <> []
    /\ forall start,
         fold_left
           (fun acc c => acc * 10 + (Z.of_nat (nat_of_ascii c) - 48))
           ds start
         = start * 10 ^ Z.of_nat (List.length ds) + Z.of_N n.
Proof.
  revert n acc. induction fuel as [|fuel IH]; intros n acc Hn;
    cbn [Link.decimalDigits].
  all: assert (Hdigit : (n mod 10 < 10)%N) by (apply N.mod_lt; lia).
  all: destruct (digitChar_digit _ Hdigit) as [Hchar Hvalue].
  all: assert (Hsplit : Z.of_N n = Z.of_N (n / 10) * 10 + Z.of_N (n mod 10))
         by (rewrite (N.div_mod n 10) at 1 by lia; lia).
  all: assert (Hsingle : (n / 10 = 0)%N ->
         exists ds,
           Link.digitChar (n mod 10) :: acc = ds ++ acc
           /\ allDigits ds /\ ds <> []
           /\ forall start,
                fold_left
                  (fun acc c => acc * 10 + (Z.of_nat (nat_of_ascii c) - 48))
                  ds start
                = start * 10 ^ Z.of_nat (List.length ds) + Z.of_N n).
  1,3: intros Hq; exists [Link.digitChar (n mod 10)];
       (split; [reflexivity|]); (split; [now repeat constructor|]);
       (split; [discriminate|]); intros start; cbn [fold_left List.length];
       rewrite Hvalue, Hsplit, Hq; change (10 ^ Z.of_nat 1) with 10; lia.
  - assert (Hq : (n / 10 = 0)%N).
    { apply N.div_small. change (10 ^ N.of_nat 1)%N with 10%N in Hn. exact Hn. }
    rewrite Hq. cbn [N.eqb]. now apply Hsingle.
  - destruct (n / 10 =? 0)%N eqn:Hq.
    + apply N.eqb_eq in Hq. now apply Hsingle.
    + destruct (IH (n / 10)%N (Link.digitChar (n mod 10) :: acc))
        as (ds & Heq & Hds & Hne & Hfold).
      { rewrite Nat2N.inj_succ, N.pow_succ_r' in Hn.
        apply N.Div0.div_lt_upper_bound. exact Hn. }
      cbn [Link.decimalDigits] in Heq. rewrite Heq.
      exists (ds ++ [Link.digitChar (n mod 10)]).
      split; [now rewrite <- app_assoc|].
      split; [apply Forall_app; split; [exact Hds|now repeat constructor]|].
      split; [now destruct ds|].
      intros start. rewrite fold_left_app, Hfold. cbn [fold_left].
      rewrite Hvalue, length_app, Nat2Z.inj_add, Z.pow_add_r by lia.
      cbn [List.length]. rewrite Hsplit. change (10 ^ Z.of_nat 1) with 10. lia.
Qed.

Lemma decimal_value (n : N) :
  allDigits (Link.decimal n) /\ Link.decimal n <> []
  /\ parseInt (Link.decimal n) = Z.of_N n.
Proof.
  unfold Link.decimal.
  destruct (decimalDigits_value (N.to_nat (N.log2 n)) n [])
    as (ds & -> & Hds & Hne & Hfold).
  - rewrite Nat2N.inj_succ, N2Nat.id.
    destruct (N.eq_dec n 0%N) as [->|Hpos]; [reflexivity|].
    apply N.lt_le_trans with (2 ^ N.succ (N.log2 n))%N.
    + apply N.log2_spec. lia.
    + apply N.pow_le_mono_l. lia.
  - rewrite app_nil_r. split; [exact Hds|]. split; [exact Hne|].
    unfold parseInt. rewrite Hfold. lia.
Qed.

Lemma digit_not_special (c : ascii) :
  isDigit c = true ->
  Link.isWhiteSpace c = false
  /\ Ascii.eqb c "-" = false /\ Ascii.eqb c "+" = false
  /\ Ascii.eqb c "x" = false /\ Ascii.eqb c "X" = false.
Proof.
  intros Hc.
  assert (Hne : forall other, isDigit other = false -> Ascii.eqb c other = false).
  { intros other Hother. destruct (Ascii.eqb c other) eqn:Heq; [|reflexivity].
    apply Ascii.eqb_eq in Heq. congruence. }
  split; [|repeat split; apply Hne; reflexivity].
  unfold isDigit, Link.isWhiteSpace in *. cbv zeta in *.
  apply andb_true_iff in Hc. destruct Hc as [Hlo Hhi].
  apply Nat.leb_le in Hlo, Hhi.
  destruct (Nat.leb_spec 9 (nat_of_ascii c)), (Nat.leb_spec (nat_of_ascii c) 13),
    (Nat.eqb_spec (nat_of_ascii c) 32), (Nat.eqb_spec (nat_of_ascii c) 160);
    cbn; try reflexivity; lia.
Qed.

Lemma append_empty_r (s : string) : (s ++ "")%string = s.
Proof.
  induction s as [|c rest IH]; [reflexivity|].
  now rewrite append_String, IH.
Qed.

Lemma parseDigits_decimal (sign : Z) (ds : list ascii) :
  allDigits ds -> ds <> [] ->
  Link.parseDigits sign (ofChars ds) = Fin (sign * parseInt ds).
Proof.
  intros Hds Hne. unfold Link.parseDigits. cbv zeta.
  assert (Hhex : match ofChars ds with
                 | String c (String x rest) =>
                     if Ascii.eqb c "0" && (Ascii.eqb x "x" || Ascii.eqb x "X")
                     then Some rest else None
                 | _ => None
                 end = None).
  { destruct Hds as [|c ds' Hc Hds']; [reflexivity|].
    destruct Hds' as [|x ds'' Hx _]; [reflexivity|].
    cbn [ofChars fold_right].
    destruct (digit_not_special x Hx) as (_ & _ & _ & -> & ->).
    now rewrite andb_false_r. }
  rewrite Hhex.
  pose proof (digits_ofChars ds EmptyString Hds I) as Hdigits.
  rewrite append_empty_r in Hdigits.
  rewrite Hdigits. destruct ds; [congruence|reflexivity].
Qed.

(** Reading back a written integer gives the integer. *)
Lemma parseInt_toString (z : Z) :
  Link.Number_parseInt (Link.Number_toString (Fin z)) = Fin z.
Proof.
  unfold Link.Number_parseInt, Link.Number_toString. cbv zeta.
  destruct (z <? 0) eqn:Hneg.
  - apply Z.ltb_lt in Hneg.
    destruct (decimal_value (Z.to_N (- z))) as (Hds & Hne & Hvalue).
    cbn [Link.trimStart]. change (Link.isWhiteSpace "-") with false.
    cbv iota. change (Ascii.eqb "-" "-") with true. cbv iota.
    rewrite (parseDigits_decimal (-1) _ Hds Hne), Hvalue. f_equal. lia.
  - apply Z.ltb_ge in Hneg.
    destruct (decimal_value (Z.to_N z)) as (Hds & Hne & Hvalue).
    destruct (Link.decimal (Z.to_N z)) as [|c ds] eqn:Hdecimal;
      [congruence|].
    inversion Hds as [|? ? Hc Hrest]; subst.
    destruct (digit_not_special c Hc) as (Hwhite & Hminus & Hplus & _).
    cbn [ofChars fold_right Link.trimStart].
    rewrite Hwhite, Hminus, Hplus.
    change (String c (fold_right String EmptyString ds))
      with (ofChars (c :: ds)).
    rewrite (parseDigits_decimal 1 _ Hds Hne), Hvalue. f_equal. lia.
Qed.

Lemma toString_truthy (x : ext Z) :
  Link.truthyString (Some (Link.Number_toString x))
  = Some (Link.Number_toString x).
Proof.
  destruct x as [z| | |]; try reflexivity.
  unfold Link.Number_toString. destruct (z <? 0); [reflexivity|].
  destruct (decimal_value (Z.to_N z)) as (_ & Hne & _).
  destruct (Link.decimal (Z.to_N z)); [congruence|reflexivity].
Qed.

Lemma get_set_eq (params : Link.Query) (name value : string) :
  Link.get (Link.set params name value) name = Some value.
Proof.
  induction params as [|[n v] rest IH]; cbn [Link.set Link.get].
  - now rewrite String.eqb_refl.
  - destruct (String.eqb n name) eqn:Hn; cbn [Link.get]; now rewrite Hn.
Qed.

Lemma get_without (params : Link.Query) (name other : string) :
  String.eqb name other = false ->
  Link.get (Link.without params name) other = Link.get params other.
Proof.
  intros Hne. induction params as [|[n v] rest IH]; [reflexivity|].
  unfold Link.without in *. cbn [List.filter fst Link.get].
  destruct (String.eqb n name) eqn:Hn; cbn [negb Link.get].
  - apply String.eqb_eq in Hn. subst n. now rewrite Hne.
  - now rewrite IH.
Qed.

Lemma get_set_ne (params : Link.Query) (name value other : string) :
  String.eqb name other = false ->
  Link.get (Link.set params name value) other = Link.get params other.
Proof.
  intros Hne. induction params as [|[n v] rest IH]; cbn [Link.set Link.get].
  - now rewrite Hne.
  - destruct (String.eqb n name) eqn:Hn; cbn [Link.get].
    + apply String.eqb_eq in Hn. subst n. rewrite Hne.
      now apply get_without.
    + now rewrite IH.
Qed.

Lemma get_setIf_eq (params : Link.Query) (value : option string)
  (name : string) :
  Link.get (Link.setIf value name params) name
  = match value with Some text => Some text | None => Link.get params name end.
Proof.
  destruct value; [apply get_set_eq|reflexivity].
Qed.

Lemma get_setIf_ne (params : Link.Query) (value : option string)
  (name other : string) :
  String.eqb name other = false ->
  Link.get (Link.setIf value name params) other = Link.get params other.
Proof.
  intros Hne. destruct value; [now apply get_set_ne|reflexivity].
Qed.

Ltac read_query :=
  unfold Link.setQueryParams, Link.handleShare; cbv zeta;
  repeat first
    [ rewrite get_setIf_ne by reflexivity
    | rewrite get_set_ne by reflexivity
    | rewrite get_setIf_eq
    | rewrite get_set_eq ];
  cbn [Link.get].

(** What each name holds in the written query. *)
Lemma written_query (sp : Link.SearchParams) :
  let query := Link.setQueryParams sp in
  Link.get query "origin" = Some (Link.origin sp)
  /\ Link.get query "destination" = Some (Link.destination sp)
  /\ Link.get query "departureDate" = Some (Link.departureDate sp)
  /\ Link.get query "returnDate" = Link.truthyString (Link.returnDate sp)
  /\ Link.get query "adults" = Some (Link.Number_toString (Link.adults sp))
  /\ Link.get query "children"
     = option_map Link.Number_toString (Link.truthyNumber (Link.children sp))
  /\ Link.get query "infants"
     = option_map Link.Number_toString (Link.truthyNumber (Link.infants sp))
  /\ Link.get query "travelClass" = Link.truthyString (Link.travelClass sp)
  /\ Link.get query "nonStop"
     = match Link.nonStop sp with Some true => Some "true" | _ => None end
  /\ Link.get query "currencyCode"
     = Link.truthyString (Link.currencyCode sp)
  /\ Link.get query "maxResults"
     = option_map Link.Number_toString (Link.truthyNumber (Link.maxResults sp)).
Proof.
  cbv zeta. repeat split; read_query; try reflexivity.
  - now destruct (Link.truthyString (Link.returnDate sp)).
  - now destruct (option_map Link.Number_toString
                    (Link.truthyNumber (Link.children sp))).
  - now destruct (option_map Link.Number_toString
                    (Link.truthyNumber (Link.infants sp))).
  - now destruct (Link.truthyString (Link.travelClass sp)).
  - now destruct (Link.nonStop sp) as [[|]|].
  - now destruct (Link.truthyString (Link.currencyCode sp)).
  - now destruct (option_map Link.Number_toString
                    (Link.truthyNumber (Link.maxResults sp))).
Qed.

Lemma truthyString_idempotent (s : option string) :
  Link.truthyString (Link.truthyString s) = Link.truthyString s.
Proof. destruct s as [[|c rest]|]; reflexivity. Qed.

Lemma number_read_back (x : option (ext Z)) :
  Link.plainOption x ->
  option_map Link.Number_parseInt
    (Link.truthyString
       (option_map Link.Number_toString (Link.truthyNumber x)))
  = Link.truthyNumber x.
Proof.
  destruct x as [n|]; [|reflexivity].
  intros (z & -> & _). destruct (Link.truthyNumber (Some (Fin z))) as [m|] eqn:Hm;
    [|reflexivity].
  assert (m = Fin z) as -> by (destruct z; cbn in Hm; congruence).
  cbn [option_map]. rewrite toString_truthy. cbn [option_map].
  now rewrite parseInt_toString.
Qed.

(** Reading back what [setQueryParams] wrote. *)
Lemma getQueryParams_setQueryParams (sp : Link.SearchParams) :
  Link.plain sp ->
  Link.getQueryParams (Link.setQueryParams sp)
  = if Link.isEmpty (Link.origin sp) || Link.isEmpty (Link.destination sp)
    then None else Some (Link.normalize sp).
Proof.
  intros ((adults & Hadults & _) & Hchildren & Hinfants & Hmax).
  destruct (written_query sp)
    as (Ho & Hd & Hdate & Hret & Had & Hch & Hinf & Htc & Hns & Hcur & Hmr).
  cbv zeta in *. unfold Link.getQueryParams.
  rewrite Ho, Hd, Hdate, Hret, Had, Hch, Hinf, Htc, Hns, Hcur, Hmr.
  rewrite !truthyString_idempotent, !number_read_back by assumption.
  rewrite toString_truthy, Hadults, parseInt_toString.
  destruct (Link.origin sp) as [|c rest] eqn:Horigin; [reflexivity|].
  destruct (Link.destination sp) as [|c' rest'] eqn:Hdest; [reflexivity|].
  cbn [Link.truthyString Link.isEmpty orb].
  unfold Link.normalize. rewrite Horigin, Hdest, Hadults. f_equal. f_equal.
  - now destruct (Link.departureDate sp).
  - now destruct (Link.nonStop sp) as [[|]|].
Qed.

(** X20: a search whose counts are integers below 2^53 in absolute
    value, written to the address by [setQueryParams] (or put in a link
    by [getShareableLink]) and read back by [getQueryParams], comes back
    in normal form: origin, destination, departure date and adults as they
    were, and every optional field as it was unless it was an empty text,
    a zero count or a cleared flag, which come back missing.  Without an
    origin or a destination nothing is read. *)
Theorem query_round_trip (sp : Link.SearchParams) :
  Link.plain sp ->
  Link.getQueryParams (Link.setQueryParams sp)
  = if Link.isEmpty (Link.origin sp) || Link.isEmpty (Link.destination sp)
    then None else Some (Link.normalize sp).
Proof. apply getQueryParams_setQueryParams. Qed.

Lemma query_round_trip_witness :
  Link.getQueryParams (Link.setQueryParams Link.sampleParams)
  = if Link.isEmpty (Link.origin Link.sampleParams)
       || Link.isEmpty (Link.destination Link.sampleParams)
    then None else Some (Link.normalize Link.sampleParams).
Proof.
  apply (query_round_trip Link.sampleParams).
  unfold Link.plain, Link.plainOption, Link.plainNumber. cbn.
  repeat split; eexists; (split; [reflexivity|lia]).
Defined.

Example parseInt_examples :
  Link.Number_parseInt "  42px" = Fin 42
  /\ Link.Number_parseInt "0x1A" = Fin 26
  /\ Link.Number_parseInt "-7" = Fin (-7)
  /\ Link.Number_parseInt "+3" = Fin 3
  /\ Link.Number_parseInt "abc" = NaN
  /\ Link.Number_parseInt "Infinity" = NaN
  /\ Link.Number_toString (Fin (-120)) = "-120"
  /\ Link.Number_toString (Fin 0) = "0".
Proof. repeat split. Qed.

Example written_pairs :
  Link.setQueryParams Link.sampleParams
  = [ ("origin", "ACC"); ("destination", "LHR");
      ("departureDate", "2024-03-15"); ("adults", "2"); ("infants", "1");
      ("travelClass", "ECONOMY"); ("currencyCode", "EUR");
      ("maxResults", "50") ].
Proof. reflexivity. Qed.

(** The search as the share button's link restores it. *)
Definition withoutCurrencyAndLimit (sp : Link.SearchParams)
  : Link.SearchParams :=
  {| Link.origin := Link.origin sp;
     Link.destination := Link.destination sp;
     Link.departureDate := Link.departureDate sp;
     Link.returnDate := Link.returnDate sp;
     Link.adults := Link.adults sp;
     Link.children := Link.children sp;
     Link.infants := Link.infants sp;
     Link.travelClass := Link.travelClass sp;
     Link.nonStop := Link.nonStop sp;
     Link.currencyCode := None;
     Link.maxResults := None |}.

(** X21: the link of the share button, unlike that of [getShareableLink],
    carries neither the currency nor the number of results: read back, it
    gives the search in normal form without them, whatever they were. *)
Theorem share_button_drops_currency (sp : Link.SearchParams) :
  Link.plain sp ->
  Link.get (Link.handleShare sp) "currencyCode" = None
  /\ Link.get (Link.handleShare sp) "maxResults" = None
  /\ Link.getQueryParams (Link.handleShare sp)
     = if Link.isEmpty (Link.origin sp) || Link.isEmpty (Link.destination sp)
       then None
       else Some (withoutCurrencyAndLimit (Link.normalize sp)).
Proof.
  intros (Hadults & Hchildren & Hinfants & _).
  split; [read_query; reflexivity|]. split; [read_query; reflexivity|].
  change (Link.handleShare sp)
    with (Link.setQueryParams (withoutCurrencyAndLimit sp)).
  rewrite getQueryParams_setQueryParams; [reflexivity|].
  repeat split; assumption.
Qed.

Lemma share_button_drops_currency_witness :
  Link.get (Link.handleShare Link.sampleParams) "currencyCode" = None
  /\ Link.get (Link.handleShare Link.sampleParams) "maxResults" = None
  /\ Link.getQueryParams (Link.handleShare Link.sampleParams)
     = if Link.isEmpty (Link.origin Link.sampleParams)
          || Link.isEmpty (Link.destination Link.sampleParams)
       then None
       else Some (withoutCurrencyAndLimit (Link.normalize Link.sampleParams)).
Proof.
  apply (share_button_drops_currency Link.sampleParams).
  unfold Link.plain, Link.plainOption, Link.plainNumber. cbn.
  repeat split; eexists; (split; [reflexivity|lia]).
Defined.

Lemma isEmpty_false (s : string) :
  Link.isEmpty s = false -> Link.truthyString (Some s) = Some s.
Proof. destruct s; [discriminate|reflexivity]. Qed.

(** X22: the search form submits a search only with an origin, a
    destination and a departure date, and for a round trip a return date;
    a one-way search carries no return date; and a submitted search whose
    number of adults is an integer below 2^53 survives the address
    unchanged: read back, it is the search that was submitted. *)
Theorem submitted_search_round_trips (form : Link.Form)
  (sp : Link.SearchParams) :
  Link.handleSubmit form = Some sp ->
  Link.origin sp <> EmptyString
  /\ Link.destination sp <> EmptyString
  /\ Link.departureDate sp <> EmptyString
  /\ match Link.tripType form with
     | Link.Roundtrip =>
         exists date, Link.returnDate sp = Some date /\ date <> EmptyString
     | Link.Oneway => Link.returnDate sp = None
     end
  /\ (Link.plainNumber (Link.adults sp) ->
      Link.getQueryParams (Link.setQueryParams sp) = Some sp).
Proof.
  unfold Link.handleSubmit.
  destruct (Link.isEmpty (Link.selectedOrigin form)) eqn:Ho;
    [discriminate|].
  destruct (Link.isEmpty (Link.selectedDestination form)) eqn:Hd;
    [discriminate|].
  destruct (Link.isEmpty (Link.formDepartureDate form)) eqn:Hdate;
    [discriminate|].
  cbn [orb].
  destruct (match Link.tripType form with
            | Link.Roundtrip => Link.isEmpty (Link.formReturnDate form)
            | Link.Oneway => false
            end) eqn:Hreturn; [discriminate|].
  intros [= <-]. cbn [Link.origin Link.destination Link.departureDate
                       Link.returnDate Link.adults].
  split; [now destruct (Link.selectedOrigin form)|].
  split; [now destruct (Link.selectedDestination form)|].
  split; [now destruct (Link.formDepartureDate form)|].
  split.
  - destruct (Link.tripType form); [|reflexivity].
    exists (Link.formReturnDate form). split; [reflexivity|].
    now destruct (Link.formReturnDate form).
  - intros Hadults. rewrite getQueryParams_setQueryParams.
    + cbn [Link.origin Link.destination]. rewrite Ho, Hd. cbn [orb].
      unfold Link.normalize.
      cbn [Link.origin Link.destination Link.departureDate Link.returnDate
           Link.adults Link.children Link.infants Link.travelClass
           Link.nonStop Link.currencyCode Link.maxResults
           Link.truthyString Link.truthyNumber].
      do 2 f_equal.
      destruct (Link.tripType form); [|reflexivity].
      now apply isEmpty_false.
    + repeat split; try exact Hadults; try exact I.
      exists 50. split; [reflexivity|lia].
Qed.

Lemma submitted_search_round_trips_witness :
  exists sp,
    Link.handleSubmit Link.sampleForm = Some sp
    /\ Link.getQueryParams (Link.setQueryParams sp) = Some sp.
Proof.
  eexists. split; [reflexivity|].
  refine (proj2 (proj2 (proj2 (proj2
            (submitted_search_round_trips Link.sampleForm _ eq_refl)))) _).
  exists 2. split; [reflexivity|lia].
Defined.

(** ** The access token *)

(** X23: the safety margin of five minutes is taken twice, once when the
    token is stored and once when it is checked: a token received at time
    [received] with a lifetime of [expires_in] seconds is used again
    without a new request exactly when it is not the empty text and more
    than ten minutes of its lifetime remain; otherwise a new token is
    requested.  A token that lives ten minutes or less is never reused. *)
Theorem token_reused_until_ten_minutes_left
  (data : Amadeus.AmadeusAuthResponse) (received now later : Z)
  (next : option Amadeus.AmadeusAuthResponse) (before after : Amadeus.Service) :
  Amadeus.authenticate (Some data) received before = Some after ->
  received <= now ->
  (fst (Amadeus.ensureValidToken now next later after) = false
   <-> Amadeus.access_token data <> EmptyString
       /\ now + 600000 < received + Amadeus.expires_in data * 1000)
  /\ (fst (Amadeus.ensureValidToken now next later after) = false ->
      snd (Amadeus.ensureValidToken now next later after) = Some after)
  /\ (fst (Amadeus.ensureValidToken now next later after) = true ->
      snd (Amadeus.ensureValidToken now next later after)
      = Amadeus.authenticate next later after)
  /\ (Amadeus.expires_in data <= 600 ->
      fst (Amadeus.ensureValidToken now next later after) = true).
Proof.
  intros [= <-] Hnow. unfold Amadeus.ensureValidToken, Amadeus.tokenValid.
  cbn [Amadeus.accessToken Amadeus.tokenExpiry].
  destruct (Amadeus.access_token data) as [|c rest]; cbn [fst snd].
  - repeat split; try discriminate; try reflexivity.
    intros [Hne _]. now contradiction Hne.
  - destruct (Z.ltb_spec (now + 300000)
                (received + (Amadeus.expires_in data - 300) * 1000))
      as [Hlt|Hge]; cbn [fst snd].
    + repeat split; try discriminate; try reflexivity; try lia.
    + repeat split; try discriminate; try reflexivity; try lia.
Qed.

Lemma token_reused_until_ten_minutes_left_witness :
  let data := {| Amadeus.access_token := "token";
                 Amadeus.expires_in := 1799 |} in
  let after := {| Amadeus.accessToken := Some "token";
                  Amadeus.tokenExpiry := 1499000 |} in
  fst (Amadeus.ensureValidToken 1199000 None 1199500 after) = false
  <-> Amadeus.access_token data <> EmptyString
      /\ 1199000 + 600000 < 0 + Amadeus.expires_in data * 1000.
Proof.
  cbv zeta.
  apply (token_reused_until_ten_minutes_left
           {| Amadeus.access_token := "token"; Amadeus.expires_in := 1799 |}
           0 1199000 1199500 None Amadeus.created
           {| Amadeus.accessToken := Some "token";
              Amadeus.tokenExpiry := 1499000 |} eq_refl).
  lia.
Defined.

(** ** Resetting the filters *)

Lemma initial_range_finite {A} (observe : A -> Q) (items : list A)
  (fallbackMax : Z) :
  exists lo hi,
    (if Z.of_nat (List.length items) =? 0 then (Fin 0, Fin fallbackMax)
     else (Math_floor (Math_min (map observe items)),
           Math_ceil (Math_max (map observe items))))
    = (Fin lo, Fin hi).
Proof.
  destruct items as [|item rest]; [now exists 0, fallbackMax|].
  destruct (Z.eqb_spec (Z.of_nat (List.length (item :: rest))) 0) as [H0|_];
    [discriminate|].
  destruct (Math_min_cases (map observe (item :: rest)))
    as [[Hnil _]|(lo & -> & _)]; [discriminate|].
  destruct (Math_max_cases (map observe (item :: rest)))
    as [[Hnil _]|(hi & -> & _)]; [discriminate|].
  now exists (Qfloor lo), (Qceiling hi).
Qed.

Section Reset.
Context `{Host}.

(** X24: the reset button always has a filter state to set, whatever the
    flights; with it no filter is reported active and every flight is
    listed, unlike right after loading. *)
Theorem resetFilters_shows_all (flights : list ProcessedFlight) :
  exists filters,
    resetFilters flights = Some filters
    /\ hasActiveFilters flights filters = false
    /\ applyFilters flights filters = flights.
Proof.
  destruct (initial_range_finite priceNumeric flights 1000)
    as (minPrice & maxPrice & Hprice).
  destruct (initial_range_finite totalDuration flights 1440)
    as (minDuration & maxDuration & Hduration).
  fold (getPriceRange flights) in Hprice.
  fold (getDurationRange flights) in Hduration.
  unfold resetFilters. cbv zeta. rewrite Hprice, Hduration.
  eexists. split; [reflexivity|].
  match goal with
  | |- ?active = false /\ _ => assert (Hinactive : active = false)
  end.
  { unfold hasActiveFilters. cbv zeta. rewrite Hprice, Hduration.
    cbn [stops airlines priceRange duration departureTimeRange
         arrivalTimeRange fst snd strictNe List.length].
    rewrite !Qeq_bool_refl. reflexivity. }
  split; [exact Hinactive|]. now apply applyFilters_inactive.
Qed.
End Reset.
